(** * fix-revenue.py: a one-shot textual patch of [src/components/Goals.tsx]

  The script reads the file as UTF-8 text, replaces every match of one
  regular expression with a fixed replacement ([re.sub]), writes the text
  back and prints a confirmation.

  Layout of this development:
  - [Text]   : Python [str] values as lists of code points, occurrences of a
               literal, joining of segments;
  - [Re]     : the fragment of Python's [re] module the script relies on
               (pattern parser, replacement-template parser, [re.sub]);
  - [Script] : the two constants of the script and the substitution of
               line 13;
  - [Codec]  : the [utf-8] codec and the newline translation of text-mode
               files;
  - [Os]     : files, access rights, standard streams and the states
               standard output can be in, the exceptions of
               [open]/[read]/[write]/[print], and the script itself;
  - the theorems. *)

From Stdlib Require Import ZArith NArith Lia List Bool Ascii String.
From Stdlib Require Import Strings.Byte.
From stdpp Require Import base option list gmap strings.

Local Open Scope N_scope.

(* ===================================================================== *)
(** ** Python strings *)
(* ===================================================================== *)

Module Text.

(** A Python [str] is a sequence of Unicode code points. *)
Abbreviation char := N.
Abbreviation str := (list N).

(** An ASCII source literal such as [r'...'] or ["..."].  Raw strings keep
    their backslashes, exactly as Rocq string literals do. *)
Definition py (s : string) : str :=
  map N_of_ascii (list_ascii_of_string s).

(** [s.startswith(p)] *)
Fixpoint startswith (p s : str) : bool :=
  match p, s with
  | [], _ => true
  | x :: p', c :: s' => (x =? c) && startswith p' s'
  | _ :: _, [] => false
  end.

(** Number of positions of [s] at which the literal [p] occurs
    (overlapping occurrences are all counted). *)
Fixpoint occurrences (p s : str) : nat :=
  ((if startswith p s then 1 else 0) +
   match s with
   | [] => 0
   | _ :: s' => occurrences p s'
   end)%nat.

(** Two literals that differ at a position both of them have. *)
Fixpoint clash (a b : str) : bool :=
  match a, b with
  | x :: a', y :: b' => negb (x =? y) || clash a' b'
  | _, _ => false
  end.

(** [c in s] *)
Definition contains (c : N) (s : str) : bool := existsb (N.eqb c) s.

(** [sep.join(segs)] for a non-empty list of segments. *)
Fixpoint join (sep : str) (segs : list str) : str :=
  match segs with
  | [] => []
  | [g] => g
  | g :: rest => g ++ sep ++ join sep rest
  end.

End Text.

Import Text.

(* ===================================================================== *)
(** ** The fragment of [re] used by the script *)
(* ===================================================================== *)

Module Re.

Definition backslash : N := 92.
Definition newline : N := 10.
Definition dot : N := 46.

(** [SPECIAL_CHARS] of the pattern parser: [.\[{()*+?^$|]. *)
Definition SPECIAL_CHARS : str := py ".\[{()*+?^$|".

Definition is_special (c : N) : bool :=
  existsb (N.eqb c) SPECIAL_CHARS.

(** ASCII letters and digits: after a backslash they introduce character
    classes, anchors, back-references and control escapes. *)
Definition is_ascii_alnum (c : N) : bool :=
  ((48 <=? c) && (c <=? 57)) ||
  ((65 <=? c) && (c <=? 90)) ||
  ((97 <=? c) && (c <=? 122)).

(** What a compiled pattern of the fragment is made of: every atom consumes
    exactly one character of the subject. *)
Inductive atom :=
| Lit (c : N)      (* LITERAL c *)
| AnyChar.         (* ANY: every character but a newline (no DOTALL) *)

(** The pattern parser (flags = 0).  A backslash followed by anything that
    is not an ASCII letter or digit is that character taken literally; a
    character outside [SPECIAL_CHARS] is a literal; an unescaped [.] is
    [ANY].  [None] stands for everything else: a pattern the parser
    rejects (a lone trailing backslash) or one that needs groups,
    repetition, sets, alternation, anchors or classes, which this fragment
    does not cover. *)
Fixpoint parse_pattern (p : str) : option (list atom) :=
  match p with
  | [] => Some []
  | c :: p' =>
    if c =? backslash then
      match p' with
      | [] => None
      | e :: p'' =>
        if is_ascii_alnum e then None
        else cons (Lit e) <$> parse_pattern p''
      end
    else if c =? dot then cons AnyChar <$> parse_pattern p'
    else if is_special c then None
    else cons (Lit c) <$> parse_pattern p'
  end.

(** The replacement-template parser.  Only a backslash is special in a
    template: [\\] is one backslash, a backslash before a character that
    is not an ASCII letter or digit stays as it is, and a backslash before
    a letter or digit is a group reference or a control escape ([None]
    here: patterns of the fragment have no groups).  The result is the
    text inserted for each match. *)
Fixpoint parse_template (r : str) : option str :=
  match r with
  | [] => Some []
  | c :: r' =>
    if c =? backslash then
      match r' with
      | [] => None
      | e :: r'' =>
        if e =? backslash then cons backslash <$> parse_template r''
        else if is_ascii_alnum e then None
        else (fun t => backslash :: e :: t) <$> parse_template r''
      end
    else cons c <$> parse_template r'
  end.

Definition atom_matches (a : atom) (c : N) : bool :=
  match a with
  | Lit x => x =? c
  | AnyChar => negb (c =? newline)
  end.

(** Does the pattern match at the start of [s]?  The match, when there is
    one, is the first [length atoms] characters of [s]. *)
Fixpoint match_here (atoms : list atom) (s : str) : bool :=
  match atoms, s with
  | [], _ => true
  | a :: atoms', c :: s' => atom_matches a c && match_here atoms' s'
  | _ :: _, [] => false
  end.

(** The text of the match at the start of [s], if the pattern matches
    there. *)
Definition matched_text (atoms : list atom) (s : str) : option str :=
  if match_here atoms s then Some (take (length atoms) s) else None.

(** The scan of [re.sub]: leftmost, non-overlapping matches, left to
    right.  [skip] counts the characters of the current match that are
    still to be passed over. *)
Fixpoint sub_from (atoms : list atom) (ins : str) (skip : nat) (s : str)
  : str :=
  match s with
  | [] =>
    match skip with
    | O => if match_here atoms [] then ins else []
    | S _ => []
    end
  | c :: s' =>
    match skip with
    | S k => sub_from atoms ins k s'
    | O =>
      if match_here atoms s then
        ins ++ match length atoms with
               | O => c :: sub_from atoms ins 0 s'
               | S k => sub_from atoms ins k s'
               end
      else c :: sub_from atoms ins 0 s'
    end
  end.

(** The scan for a pattern that is the literal [pat], inserting [ins]. *)
Definition sub_literal (pat ins s : str) : str :=
  sub_from (map Lit pat) ins 0 s.

(** [re.sub(pattern, repl, string)] *)
Definition sub (pattern repl s : str) : option str :=
  atoms ← parse_pattern pattern;
  ins ← parse_template repl;
  Some (sub_from atoms ins 0 s).

End Re.

(* ===================================================================== *)
(** ** The constants and the substitution of the script *)
(* ===================================================================== *)

Module Script.

(** Line 10. *)
Definition old_pattern : str :=
  py "\$\{\(goal as RevenueGoal\)\.currentAmount\}".

(** Line 11. *)
Definition new_pattern : str :=
  py "${progress.currentValue.toFixed(2)}".

(** Line 13: [content = re.sub(old_pattern, new_pattern, content)]. *)
Definition substitute (content : str) : option str :=
  Re.sub old_pattern new_pattern content.

(** The literal text the claims call "the pattern" and "the replacement". *)
Definition pattern_literal : str :=
  py "${(goal as RevenueGoal).currentAmount}".

Definition replacement_literal : str :=
  py "${progress.currentValue.toFixed(2)}".

(** Both literals start with [$] and have no other [$]. *)
Definition dollar : N := 36.
Definition pattern_tail : str := py "{(goal as RevenueGoal).currentAmount}".
Definition replacement_tail : str := py "{progress.currentValue.toFixed(2)}".

(** What line 13 assigns to [content] once both constants are parsed. *)
Definition patched (content : str) : str :=
  Re.sub_literal pattern_literal replacement_literal content.

(** A file that was patched by hand in one place and not in another. *)
Definition partly_patched : str :=
  py "a: ${progress.currentValue.toFixed(2)} " ++
  py "b: ${(goal as RevenueGoal).currentAmount}".

End Script.

Import Script.

(* ===================================================================== *)
(** ** Text-mode files: the [utf-8] codec and newline translation *)
(* ===================================================================== *)

Module Codec.

Definition CR : N := 13.
Definition LF : N := 10.

(** A continuation byte, [10xxxxxx]. *)
Definition is_cont (n : N) : bool := (0x80 <=? n) && (n <=? 0xBF).

(** [bytes.decode('utf-8')], errors='strict': shortest forms only, no
    surrogates, nothing above U+10FFFF; a byte-order mark is an ordinary
    character.  [None] is [UnicodeDecodeError]. *)
Fixpoint utf8_decode (bs : list byte) : option str :=
  match bs with
  | [] => Some []
  | b0 :: r0 =>
    let n0 := Byte.to_N b0 in
    if n0 <? 0x80 then cons n0 <$> utf8_decode r0
    else if n0 <? 0xC2 then None
    else if n0 <? 0xE0 then
      match r0 with
      | b1 :: r1 =>
        let n1 := Byte.to_N b1 in
        if is_cont n1
        then cons ((n0 - 0xC0) * 64 + (n1 - 0x80)) <$> utf8_decode r1
        else None
      | _ => None
      end
    else if n0 <? 0xF0 then
      match r0 with
      | b1 :: b2 :: r2 =>
        let n1 := Byte.to_N b1 in
        let n2 := Byte.to_N b2 in
        let lo := if n0 =? 0xE0 then 0xA0 else 0x80 in
        let hi := if n0 =? 0xED then 0x9F else 0xBF in
        if (lo <=? n1) && (n1 <=? hi) && is_cont n2
        then cons (((n0 - 0xE0) * 64 + (n1 - 0x80)) * 64 + (n2 - 0x80))
               <$> utf8_decode r2
        else None
      | _ => None
      end
    else if n0 <? 0xF5 then
      match r0 with
      | b1 :: b2 :: b3 :: r3 =>
        let n1 := Byte.to_N b1 in
        let n2 := Byte.to_N b2 in
        let n3 := Byte.to_N b3 in
        let lo := if n0 =? 0xF0 then 0x90 else 0x80 in
        let hi := if n0 =? 0xF4 then 0x8F else 0xBF in
        if (lo <=? n1) && (n1 <=? hi) && is_cont n2 && is_cont n3
        then cons ((((n0 - 0xF0) * 64 + (n1 - 0x80)) * 64 + (n2 - 0x80)) * 64
                   + (n3 - 0x80))
               <$> utf8_decode r3
        else None
      | _ => None
      end
    else None
  end.

(** The byte with value [n] ([n < 256]). *)
Definition byte_of (n : N) : byte := default x00 (Byte.of_N n).

(** One character of [str.encode('utf-8')]; [None] is [UnicodeEncodeError]
    (a lone surrogate). *)
Definition utf8_encode_char (c : N) : option (list byte) :=
  if c <? 0x80 then Some [byte_of c]
  else if c <? 0x800 then
    Some [byte_of (0xC0 + c / 64); byte_of (0x80 + c mod 64)]
  else if c <? 0x10000 then
    if (0xD800 <=? c) && (c <? 0xE000) then None
    else Some [byte_of (0xE0 + c / 4096);
               byte_of (0x80 + (c / 64) mod 64);
               byte_of (0x80 + c mod 64)]
  else if c <? 0x110000 then
    Some [byte_of (0xF0 + c / 262144);
          byte_of (0x80 + (c / 4096) mod 64);
          byte_of (0x80 + (c / 64) mod 64);
          byte_of (0x80 + c mod 64)]
  else None.

Fixpoint utf8_encode (s : str) : option (list byte) :=
  match s with
  | [] => Some []
  | c :: s' =>
    bs ← utf8_encode_char c;
    rest ← utf8_encode s';
    Some (bs ++ rest)
  end.

(** Text made of characters that can be encoded. *)
Definition encodable (s : str) : Prop :=
  Forall (fun c => is_Some (utf8_encode_char c)) s.

(** Reading with [newline=None] (the default of [open]): universal
    newlines, ['\r\n'] and ['\r'] both become ['\n']. *)
Fixpoint universal_newlines (s : str) : str :=
  match s with
  | [] => []
  | c :: s' =>
    if c =? CR then
      LF :: match s' with
            | d :: s'' =>
              if d =? LF then universal_newlines s''
              else universal_newlines s'
            | [] => []
            end
    else c :: universal_newlines s'
  end.

(** Writing with [newline=None]: every ['\n'] becomes [os.linesep]. *)
Definition translate_newlines (linesep s : str) : str :=
  flat_map (fun c => if c =? LF then linesep else [c]) s.

(** The host on which the script runs decides [os.linesep]. *)
Inductive platform := Posix | Windows.

Definition linesep (os : platform) : str :=
  match os with
  | Posix => [LF]
  | Windows => [CR; LF]
  end.

(** What [f.read()] returns for a file opened with
    [open(..., 'r', encoding='utf-8')]. *)
Definition decode_text (bs : list byte) : option str :=
  universal_newlines <$> utf8_decode bs.

(** What [f.write(s)] sends to a file opened with
    [open(..., 'w', encoding='utf-8')]. *)
Definition encode_text (os : platform) (s : str) : option (list byte) :=
  utf8_encode (translate_newlines (linesep os) s).

(** The bytes of an ASCII literal. *)
Definition ascii_bytes (s : string) : list byte :=
  map byte_of_ascii (list_ascii_of_string s).

(** Line endings that survive a read followed by a write on [os]. *)
Fixpoint crlf_only (s : str) : bool :=
  match s with
  | [] => true
  | c :: s' =>
    if c =? CR then
      match s' with
      | d :: s'' => (d =? LF) && crlf_only s''
      | [] => false
      end
    else negb (c =? LF) && crlf_only s'
  end.

Definition native_newlines (os : platform) (s : str) : bool :=
  match os with
  | Posix => forallb (fun c => negb (c =? CR)) s
  | Windows => crlf_only s
  end.

(** [sep.join(segs)] on [bytes]. *)
Fixpoint join_bytes (sep : list byte) (segs : list (list byte))
  : list byte :=
  match segs with
  | [] => []
  | [g] => g
  | g :: rest => g ++ sep ++ join_bytes sep rest
  end.

End Codec.

Import Codec.

(* ===================================================================== *)
(** ** Files, streams, exceptions and the script *)
(* ===================================================================== *)

Module Os.

(** The exceptions the statements of the script can raise.  [OSError] is
    the one of a write that standard output refuses. *)
Inductive exn :=
| FileNotFoundError
| PermissionError
| UnicodeDecodeError
| UnicodeEncodeError
| re_error
| OSError.

Inductive mode := ModeR | ModeW.

(** System calls on files, in the order in which they are attempted. *)
Inductive event :=
| EvOpen (path : string) (m : mode)
| EvClose (path : string).

(** A file: its bytes and whether this process may open it for reading
    and for writing.  A path of the file system names a regular file of its
    own or nothing: directories, devices and links (two paths for one file)
    are outside this model, and so are a full disk and other failures of a
    write that was allowed to start. *)
Record file := File {
  data : list byte;
  may_read : bool;
  may_write : bool
}.

Record world := World {
  fs : gmap string file;
  stdout : list string;
  stderr : list string;
  trace : list event
}.

Definition set_fs (m : gmap string file) (w : world) : world :=
  World m (stdout w) (stderr w) (trace w).

Definition add_stdout (line : string) (w : world) : world :=
  World (fs w) (stdout w ++ [line]) (stderr w) (trace w).

Definition add_stderr (line : string) (w : world) : world :=
  World (fs w) (stdout w) (stderr w ++ [line]) (trace w).

Definition add_event (ev : event) (w : world) : world :=
  World (fs w) (stdout w) (stderr w) (trace w ++ [ev]).

(** Statements: they change the world and either return a value or raise. *)
Definition IO (A : Type) : Type := world -> (exn + A) * world.

Definition ret {A} (a : A) : IO A := fun w => (inr a, w).

Definition raise {A} (e : exn) : IO A := fun w => (inl e, w).

Definition bind {A B} (m : IO A) (k : A -> IO B) : IO B :=
  fun w =>
    match m w with
    | (inr a, w') => k a w'
    | (inl e, w') => (inl e, w')
    end.

Notation "x <~ m ;; k" := (bind m (fun x => k))
  (at level 100, m at next level, right associativity).
Notation "m ;;; k" := (bind m (fun _ => k))
  (at level 100, right associativity).

(** An open file object: the path it was opened on. *)
Abbreviation handle := string (only parsing).

(** [open(path, 'r', encoding='utf-8')]: [FileNotFoundError] for a path
    that names nothing, [PermissionError] for a file that may not be read.
    The other ways [open] can fail (a directory at the path, a component of
    the path that is not a directory) are outside the model. *)
Definition open_r (path : string) : IO handle :=
  fun w =>
    let w := add_event (EvOpen path ModeR) w in
    match fs w !! path with
    | None => (inl FileNotFoundError, w)
    | Some f =>
      if may_read f then (inr path, w) else (inl PermissionError, w)
    end.

(** [open(path, 'w', encoding='utf-8')]: the file is created or truncated
    as soon as it is opened. *)
Definition open_w (path : string) : IO handle :=
  fun w =>
    let w := add_event (EvOpen path ModeW) w in
    match fs w !! path with
    | None => (inr path, set_fs (<[path := File [] true true]> (fs w)) w)
    | Some f =>
      if may_write f
      then (inr path,
            set_fs (<[path := File [] (may_read f) true]> (fs w)) w)
      else (inl PermissionError, w)
    end.

Definition open_ (path : string) (m : mode) : IO handle :=
  match m with
  | ModeR => open_r path
  | ModeW => open_w path
  end.

(** [with open(path, m, encoding='utf-8') as f: body]: the file is closed on
    the way out, whether [body] returns or raises. *)
Definition with_open {A} (path : string) (m : mode) (body : handle -> IO A)
  : IO A :=
  bind (open_ path m) (fun f w =>
    match body f w with
    | (r, w') => (r, add_event (EvClose path) w')
    end).

(** [f.read()] *)
Definition read (f : handle) : IO str :=
  fun w =>
    match fs w !! f with
    | None => (inl FileNotFoundError, w)
    | Some fl =>
      match decode_text (data fl) with
      | Some s => (inr s, w)
      | None => (inl UnicodeDecodeError, w)
      end
    end.

(** [f.write(s)] *)
Definition write (os : platform) (f : handle) (s : str) : IO unit :=
  fun w =>
    match encode_text os s with
    | None => (inl UnicodeEncodeError, w)
    | Some bs =>
      match fs w !! f with
      | None => (inl FileNotFoundError, w)
      | Some fl =>
        (inr tt,
         set_fs (<[f := File (data fl ++ bs) (may_read fl) (may_write fl)]>
                   (fs w)) w)
      end
    end.

(** [re.sub(pattern, repl, string)] as a statement. *)
Definition re_sub (pattern repl s : str) : IO str :=
  match Re.sub pattern repl s with
  | Some r => ret r
  | None => raise re_error
  end.

(** What standard output is when the interpreter starts. *)
Inductive console :=
| ConsoleOpen      (* a stream that takes what is written to it *)
| ConsoleClosed    (* descriptor 1 is closed: [sys.stdout] is [None] *)
| ConsoleFull      (* a buffered stream whose flush at exit fails *)
| ConsoleBroken.   (* an unbuffered or line-buffered stream whose write
                      fails *)

(** [print(msg)]: the message and a newline go to standard output.  With
    [sys.stdout] being [None] the call does nothing; on a buffered stream
    that cannot be flushed the text stays in the buffer and the call
    returns; on a stream that is written through the failed write raises. *)
Definition nl : string := String "010"%char EmptyString.

Definition print_on (c : console) (msg : string) : IO unit :=
  match c with
  | ConsoleOpen => fun w => (inr tt, add_stdout (msg ++ nl) w)
  | ConsoleClosed => ret tt
  | ConsoleFull => ret tt
  | ConsoleBroken => raise OSError
  end.

(** [print] when standard output is open. *)
Definition print (msg : string) : IO unit := print_on ConsoleOpen msg.

(** The path of lines 5 and 16. *)
Definition target : string := "src/components/Goals.tsx".

(** The script, lines 5 to 19. *)
Definition main_on (c : console) (os : platform) : IO unit :=
  content <~ with_open target ModeR (fun f => read f) ;;
  content <~ re_sub old_pattern new_pattern content ;;
  with_open target ModeW (fun f => write os f content) ;;;
  print_on c "Fixed!".

(** The script when standard output is open. *)
Definition main (os : platform) : IO unit := main_on ConsoleOpen os.

(** What the interpreter reports for an exception nobody handled. *)
Definition exn_name (e : exn) : string :=
  match e with
  | FileNotFoundError => "FileNotFoundError"
  | PermissionError => "PermissionError"
  | UnicodeDecodeError => "UnicodeDecodeError"
  | UnicodeEncodeError => "UnicodeEncodeError"
  | re_error => "re.error"
  | OSError => "OSError"
  end.

Definition traceback (e : exn) : string :=
  "Traceback (most recent call last): " ++ exn_name e.

(** What the interpreter reports when it cannot flush standard output on
    its way out. *)
Definition flush_failure : string :=
  "Exception ignored in: <_io.TextIOWrapper name='<stdout>'>: OSError".

(** One run of the interpreter on the script.  An unhandled exception is
    reported on standard error and the exit status is 1.  When the script
    returns, standard output is flushed: the script returns only after its
    [print], so on a stream that cannot be flushed the buffered line is
    lost, the failure is reported on standard error and the exit status is
    120; otherwise the exit status is 0. *)
Record result := Result {
  exit_status : Z;
  after : world
}.

Definition python3_on (c : console) (os : platform) (w : world) : result :=
  match main_on c os w with
  | (inr _, w') =>
    match c with
    | ConsoleFull => Result 120 (add_stderr flush_failure w')
    | _ => Result 0 w'
    end
  | (inl e, w') => Result 1 (add_stderr (traceback e) w')
  end.

(** The run when standard output is open. *)
Definition python3 (os : platform) (w : world) : result :=
  python3_on ConsoleOpen os w.

(** How often the script tried to open [path] in mode [m]. *)
Definition same_mode (m1 m2 : mode) : bool :=
  match m1, m2 with
  | ModeR, ModeR | ModeW, ModeW => true
  | _, _ => false
  end.

Definition opens (path : string) (m : mode) (tr : list event) : nat :=
  length (List.filter
            (fun ev =>
               match ev with
               | EvOpen p m' => String.eqb p path && same_mode m m'
               | EvClose _ => false
               end) tr).

(** A world in which the target is the only file and nothing has been
    printed yet. *)
Definition world_with (bs : list byte) (r wr : bool) : world :=
  World {[ target := File bs r wr ]} [] [] [].


(** The bytes of ["a\r\nb"]: one line ending, written the Windows way. *)
Definition crlf_file : list byte := [x61; x0d; x0a; x62].


(** A file patched by hand in its first line and not in its second, with a
    Windows line ending between the two. *)
Definition partly_patched_file : list byte :=
  ascii_bytes "a: ${progress.currentValue.toFixed(2)}"
  ++ [x0d; x0a]
  ++ ascii_bytes "b: ${(goal as RevenueGoal).currentAmount}".

End Os.

Import Os.

(* ===================================================================== *)
(** * Properties of the substitution *)
(* ===================================================================== *)

(** ** Literals *)

Lemma startswith_app (x rest : str) : startswith x (x ++ rest) = true.
Proof.
  induction x as [|c x IH]; simpl; [reflexivity|].
  rewrite N.eqb_refl. exact IH.
Qed.

Lemma startswith_inv (x s : str) :
  startswith x s = true -> exists rest, s = x ++ rest.
Proof.
  revert s. induction x as [|c x IH]; intros s H.
  - exists s. reflexivity.
  - destruct s as [|c' s]; simpl in H; [discriminate|].
    apply andb_true_iff in H as [Hc Hx].
    apply N.eqb_eq in Hc. subst c'.
    destruct (IH _ Hx) as [rest ->]. exists rest. reflexivity.
Qed.

Lemma startswith_clash (a b t : str) :
  clash a b = true -> startswith a (b ++ t) = false.
Proof.
  revert b. induction a as [|x a IH]; intros [|y b] H; simpl in *;
    try discriminate.
  destruct (x =? y); simpl in *; [|reflexivity]. apply IH. exact H.
Qed.

Lemma clash_sym (a b : str) : clash a b = clash b a.
Proof.
  revert b. induction a as [|x a IH]; intros [|y b]; simpl; try reflexivity.
  rewrite IH, (N.eqb_sym x y). reflexivity.
Qed.

Lemma occurrences_cons (x : str) (c : N) (s : str) :
  occurrences x (c :: s)
  = ((if startswith x (c :: s) then 1 else 0) + occurrences x s)%nat.
Proof. destruct x; reflexivity. Qed.

Lemma join_cons (sep g g' : str) (tl : list str) :
  join sep (g :: g' :: tl) = g ++ sep ++ join sep (g' :: tl).
Proof. reflexivity. Qed.

Lemma match_here_lit (x s : str) :
  Re.match_here (map Re.Lit x) s = startswith x s.
Proof.
  revert s. induction x as [|c x IH]; intros [|c' s]; simpl; try reflexivity.
  rewrite IH. reflexivity.
Qed.

Lemma sub_from_skip atoms ins (x rest : str) :
  Re.sub_from atoms ins (length x) (x ++ rest) = Re.sub_from atoms ins 0 rest.
Proof. induction x as [|c x IH]; simpl; [reflexivity | exact IH]. Qed.

(** ** Replacing a literal that starts with a character it has only once *)

Section Literal.

Variables (d : N) (p r : str).

Hypothesis d_notin_p : contains d p = false.
Hypothesis d_notin_r : contains d r = false.
Hypothesis p_r_clash : clash p r = true.

Local Abbreviation pat := (d :: p).
Local Abbreviation ins := (d :: r).
Local Abbreviation lsub := (Re.sub_literal (d :: p) (d :: r)).

Lemma lsub_nil : lsub [] = [].
Proof. reflexivity. Qed.

Lemma lsub_match (rest : str) : lsub (pat ++ rest) = ins ++ lsub rest.
Proof.
  unfold Re.sub_literal. cbn [app Re.sub_from].
  rewrite match_here_lit.
  change (d :: p ++ rest) with (pat ++ rest). rewrite startswith_app.
  cbn [map length]. rewrite length_map.
  rewrite sub_from_skip. reflexivity.
Qed.

Lemma lsub_skip (c : N) (s : str) :
  startswith pat (c :: s) = false -> lsub (c :: s) = c :: lsub s.
Proof.
  intros H. unfold Re.sub_literal. cbn [Re.sub_from].
  rewrite match_here_lit, H. reflexivity.
Qed.

(** Induction along the scan. *)
Lemma lsub_ind (P : str -> Prop) :
  P [] ->
  (forall rest, P rest -> P (pat ++ rest)) ->
  (forall c s, startswith pat (c :: s) = false -> P s -> P (c :: s)) ->
  forall s, P s.
Proof.
  intros Hnil Hmatch Hskip s.
  remember (length s) as n eqn:Hn.
  revert s Hn. induction n as [n IH] using lt_wf_ind. intros s Hn.
  destruct s as [|c s]; [exact Hnil|].
  destruct (startswith pat (c :: s)) eqn:Hs.
  - destruct (startswith_inv _ _ Hs) as [rest Hrest]. rewrite Hrest.
    apply Hmatch. apply (IH (length rest)); [|reflexivity].
    subst n. rewrite Hrest, length_app. simpl. lia.
  - apply Hskip; [exact Hs|]. apply (IH (length s)); [|reflexivity].
    subst n. simpl. lia.
Qed.

(** A literal that starts with [d] cannot begin inside a stretch without
    [d]. *)
Lemma occurrences_past (q x t : str) :
  contains d x = false ->
  occurrences (d :: q) (x ++ t) = occurrences (d :: q) t.
Proof.
  induction x as [|c x IH]; intros Hx; [reflexivity|].
  cbn [contains existsb] in Hx. apply orb_false_iff in Hx as [Hc Hx].
  cbn [app]. rewrite occurrences_cons. cbn [startswith].
  rewrite Hc. cbn. apply IH. exact Hx.
Qed.

Lemma occ_pat_pat (t : str) :
  occurrences pat (pat ++ t) = S (occurrences pat t).
Proof.
  cbn [app]. rewrite occurrences_cons.
  change (d :: p ++ t) with (pat ++ t). rewrite startswith_app.
  rewrite (occurrences_past p p t d_notin_p). reflexivity.
Qed.

Lemma occ_ins_ins (t : str) :
  occurrences ins (ins ++ t) = S (occurrences ins t).
Proof.
  cbn [app]. rewrite occurrences_cons.
  change (d :: r ++ t) with (ins ++ t). rewrite startswith_app.
  rewrite (occurrences_past r r t d_notin_r). reflexivity.
Qed.

Lemma occ_pat_ins (t : str) :
  occurrences pat (ins ++ t) = occurrences pat t.
Proof.
  cbn [app]. rewrite occurrences_cons. cbn [startswith].
  rewrite (startswith_clash p r t p_r_clash), andb_false_r.
  apply (occurrences_past p r t d_notin_r).
Qed.

Lemma occ_ins_pat (t : str) :
  occurrences ins (pat ++ t) = occurrences ins t.
Proof.
  cbn [app]. rewrite occurrences_cons. cbn [startswith].
  rewrite (startswith_clash r p t), andb_false_r
    by (rewrite clash_sym; exact p_r_clash).
  apply (occurrences_past r p t d_notin_p).
Qed.

(** Text without [d] starts the output exactly when it starts the input. *)
Lemma startswith_lsub (x s : str) :
  contains d x = false -> startswith x (lsub s) = startswith x s.
Proof.
  revert s. induction x as [|a x IH]; intros s Hx; [reflexivity|].
  cbn [contains existsb] in Hx. apply orb_false_iff in Hx as [Ha Hx].
  destruct s as [|c s]; [reflexivity|].
  destruct (startswith pat (c :: s)) eqn:Hs.
  - destruct (startswith_inv _ _ Hs) as [rest Hrest].
    rewrite Hrest, lsub_match. cbn [app startswith].
    rewrite (N.eqb_sym a d), Ha. reflexivity.
  - rewrite (lsub_skip _ _ Hs). cbn [startswith].
    rewrite (IH s Hx). reflexivity.
Qed.

Lemma startswith_pat_lsub (c : N) (s : str) :
  startswith pat (c :: lsub s) = startswith pat (c :: s).
Proof.
  cbn [startswith]. rewrite (startswith_lsub p s d_notin_p). reflexivity.
Qed.

Lemma startswith_ins_lsub (c : N) (s : str) :
  startswith ins (c :: lsub s) = startswith ins (c :: s).
Proof.
  cbn [startswith]. rewrite (startswith_lsub r s d_notin_r). reflexivity.
Qed.

(** No match is left in the output. *)
Lemma lsub_no_pat (s : str) : occurrences pat (lsub s) = 0%nat.
Proof.
  induction s as [|rest IH|c s Hs IH] using lsub_ind.
  - reflexivity.
  - rewrite lsub_match, occ_pat_ins. exact IH.
  - rewrite (lsub_skip _ _ Hs), occurrences_cons, startswith_pat_lsub, Hs, IH.
    reflexivity.
Qed.

(** Every match became one insertion, and the insertions already in the
    input are still there. *)
Lemma lsub_count_ins (s : str) :
  occurrences ins (lsub s) = (occurrences pat s + occurrences ins s)%nat.
Proof.
  induction s as [|rest IH|c s Hs IH] using lsub_ind.
  - reflexivity.
  - rewrite lsub_match, occ_ins_ins, occ_pat_pat, occ_ins_pat, IH. lia.
  - rewrite (lsub_skip _ _ Hs), !occurrences_cons, startswith_ins_lsub, Hs, IH.
    lia.
Qed.

(** Each match changes the length by [length ins - length pat]. *)
Lemma lsub_length (s : str) :
  (length (lsub s) + occurrences pat s * length pat
   = length s + occurrences pat s * length ins)%nat.
Proof.
  induction s as [|rest IH|c s Hs IH] using lsub_ind.
  - reflexivity.
  - rewrite lsub_match, occ_pat_pat, !length_app. lia.
  - rewrite (lsub_skip _ _ Hs), occurrences_cons, Hs, Nat.add_0_l.
    cbn [length] in *. lia.
Qed.

(** Without a match the text is returned as it is. *)
Lemma lsub_unchanged (s : str) : occurrences pat s = 0%nat -> lsub s = s.
Proof.
  induction s as [|rest IH|c s Hs IH] using lsub_ind; intros H0.
  - reflexivity.
  - rewrite occ_pat_pat in H0. discriminate.
  - rewrite occurrences_cons, Hs in H0.
    rewrite (lsub_skip _ _ Hs), IH; [reflexivity | exact H0].
Qed.

Lemma lsub_idempotent (s : str) : lsub (lsub s) = lsub s.
Proof. apply lsub_unchanged, lsub_no_pat. Qed.

Lemma startswith_weaken (x g t : str) :
  startswith x g = true -> startswith x (g ++ t) = true.
Proof.
  intros H. destruct (startswith_inv _ _ H) as [rest ->].
  rewrite <- app_assoc. apply startswith_app.
Qed.

(** The input is the segments between the matches joined by the pattern,
    and the output is the same segments joined by the insertion. *)
Lemma lsub_segments (s : str) :
  exists segs : list str,
    length segs = S (occurrences pat s) /\
    Forall (fun g => occurrences pat g = 0%nat) segs /\
    s = join pat segs /\
    lsub s = join ins segs.
Proof.
  induction s as [|rest IH|c s Hs IH] using lsub_ind.
  - exists [[]]. repeat split. constructor; [reflexivity | constructor].
  - destruct IH as (segs & Hlen & Hall & Hin & Hout).
    destruct segs as [|g tl]; [discriminate|].
    exists ([] :: g :: tl). repeat split.
    + rewrite occ_pat_pat. cbn [length] in *. lia.
    + constructor; [reflexivity | exact Hall].
    + rewrite join_cons, <- Hin. reflexivity.
    + rewrite lsub_match, join_cons, <- Hout. reflexivity.
  - destruct IH as (segs & Hlen & Hall & Hin & Hout).
    destruct segs as [|g tl]; [discriminate|].
    exists ((c :: g) :: tl). repeat split.
    + rewrite occurrences_cons, Hs. exact Hlen.
    + inversion Hall as [|? ? Hg Htl]; subst. constructor; [|exact Htl].
      rewrite occurrences_cons, Hg.
      destruct (startswith pat (c :: g)) eqn:Hcg; [|reflexivity].
      exfalso. destruct tl as [|g' tl'].
      * cbn [join] in Hs. rewrite Hs in Hcg. discriminate.
      * rewrite join_cons, app_comm_cons in Hs.
        rewrite (startswith_weaken pat (c :: g) _ Hcg) in Hs. discriminate.
    + rewrite Hin. destruct tl; [reflexivity | rewrite !join_cons; reflexivity].
    + rewrite (lsub_skip _ _ Hs), Hout.
      destruct tl; [reflexivity | rewrite !join_cons; reflexivity].
Qed.

End Literal.

(** ** The two constants of the script *)

Lemma parse_old_pattern :
  Re.parse_pattern old_pattern = Some (map Re.Lit pattern_literal).
Proof. vm_compute. reflexivity. Qed.

Lemma parse_new_pattern :
  Re.parse_template new_pattern = Some replacement_literal.
Proof. vm_compute. reflexivity. Qed.

Lemma substitute_patched (content : str) :
  substitute content = Some (patched content).
Proof.
  unfold substitute, Re.sub.
  rewrite parse_old_pattern, parse_new_pattern. reflexivity.
Qed.

(** Both literals start with [$] and have no other [$]; they differ at their
    third character. *)
Lemma dollar_notin_pattern_tail : contains dollar pattern_tail = false.
Proof. vm_compute. reflexivity. Qed.

Lemma dollar_notin_replacement_tail : contains dollar replacement_tail = false.
Proof. vm_compute. reflexivity. Qed.

Lemma tails_clash : clash pattern_tail replacement_tail = true.
Proof. vm_compute. reflexivity. Qed.

Lemma pattern_literal_unfold : pattern_literal = dollar :: pattern_tail.
Proof. reflexivity. Qed.

Lemma replacement_literal_unfold :
  replacement_literal = dollar :: replacement_tail.
Proof. reflexivity. Qed.

Lemma patched_unfold (s : str) :
  patched s
  = Re.sub_literal (dollar :: pattern_tail) (dollar :: replacement_tail) s.
Proof. reflexivity. Qed.

Ltac literal_facts :=
  rewrite ?patched_unfold, ?pattern_literal_unfold, ?replacement_literal_unfold.

Ltac by_literal lem :=
  literal_facts; apply lem;
  first [ exact dollar_notin_pattern_tail
        | exact dollar_notin_replacement_tail
        | exact tails_clash ].

Lemma patched_no_pattern (s : str) :
  occurrences pattern_literal (patched s) = 0%nat.
Proof. by_literal lsub_no_pat. Qed.

Lemma patched_count_replacement (s : str) :
  occurrences replacement_literal (patched s)
  = (occurrences pattern_literal s + occurrences replacement_literal s)%nat.
Proof. by_literal lsub_count_ins. Qed.

Lemma patched_length (s : str) :
  (length (patched s) + occurrences pattern_literal s * 38
   = length s + occurrences pattern_literal s * 35)%nat.
Proof.
  change 38%nat with (length pattern_literal).
  change 35%nat with (length replacement_literal).
  by_literal lsub_length.
Qed.

Lemma patched_unchanged (s : str) :
  occurrences pattern_literal s = 0%nat -> patched s = s.
Proof. by_literal lsub_unchanged. Qed.

Lemma patched_segments (s : str) :
  exists segs : list str,
    length segs = S (occurrences pattern_literal s) /\
    Forall (fun g => occurrences pattern_literal g = 0%nat) segs /\
    s = join pattern_literal segs /\
    patched s = join replacement_literal segs.
Proof. by_literal lsub_segments. Qed.

(** ** The codec *)

Lemma byte_of_to_N (b : byte) : byte_of (Byte.to_N b) = b.
Proof. unfold byte_of. rewrite Byte.of_to_N. reflexivity. Qed.

Lemma byte_of_eq (n : N) (b : byte) : n = Byte.to_N b -> byte_of n = b.
Proof. intros ->. apply byte_of_to_N. Qed.

Lemma is_cont_range (n : N) : is_cont n = true -> 0x80 <= n <= 0xBF.
Proof.
  unfold is_cont. intros H. apply andb_true_iff in H as [H1 H2].
  apply N.leb_le in H1, H2. lia.
Qed.

(** Splitting off the low digits of a number written in base 64. *)
Lemma div_digits (k q r : N) : 0 < k -> r < k -> (q * k + r) / k = q.
Proof.
  intros Hk Hr. symmetry. apply (N.div_unique _ k q r); lia.
Qed.

Lemma mod_digits (k q r : N) : 0 < k -> r < k -> (q * k + r) mod k = r.
Proof.
  intros Hk Hr. symmetry. apply (N.mod_unique _ k q r); lia.
Qed.

Lemma digits3_hi (a b c : N) :
  b < 64 -> c < 64 -> ((a * 64 + b) * 64 + c) / 4096 = a.
Proof.
  intros Hb Hc.
  replace ((a * 64 + b) * 64 + c) with (a * 4096 + (b * 64 + c)) by lia.
  apply div_digits; lia.
Qed.

Lemma digits3_mid (a b c : N) :
  b < 64 -> c < 64 -> (((a * 64 + b) * 64 + c) / 64) mod 64 = b.
Proof.
  intros Hb Hc. rewrite div_digits, mod_digits by lia. reflexivity.
Qed.

Ltac decide_cmp :=
  repeat match goal with
         | |- context [?a <? ?b] => destruct (N.ltb_spec a b); try lia
         | |- context [?a <=? ?b] => destruct (N.leb_spec a b); try lia
         end.

Lemma encode_width1 (b0 : byte) :
  Byte.to_N b0 < 0x80 -> utf8_encode_char (Byte.to_N b0) = Some [b0].
Proof.
  intros H. unfold utf8_encode_char. decide_cmp.
  rewrite byte_of_to_N. reflexivity.
Qed.

Lemma encode_width2 (b0 b1 : byte) :
  0xC2 <= Byte.to_N b0 < 0xE0 -> 0x80 <= Byte.to_N b1 <= 0xBF ->
  utf8_encode_char ((Byte.to_N b0 - 0xC0) * 64 + (Byte.to_N b1 - 0x80))
  = Some [b0; b1].
Proof.
  intros H0 H1.
  remember (Byte.to_N b0 - 0xC0) as a eqn:Ha.
  remember (Byte.to_N b1 - 0x80) as b eqn:Hb.
  unfold utf8_encode_char.
  rewrite (div_digits 64 a b), (mod_digits 64 a b) by lia.
  decide_cmp.
  rewrite (byte_of_eq _ b0), (byte_of_eq _ b1) by lia. reflexivity.
Qed.

Lemma encode_width3 (b0 b1 b2 : byte) :
  0xE0 <= Byte.to_N b0 < 0xF0 ->
  (if Byte.to_N b0 =? 0xE0 then 0xA0 else 0x80) <= Byte.to_N b1 ->
  Byte.to_N b1 <= (if Byte.to_N b0 =? 0xED then 0x9F else 0xBF) ->
  0x80 <= Byte.to_N b2 <= 0xBF ->
  utf8_encode_char
    (((Byte.to_N b0 - 0xE0) * 64 + (Byte.to_N b1 - 0x80)) * 64
     + (Byte.to_N b2 - 0x80))
  = Some [b0; b1; b2].
Proof.
  intros H0 Hlo Hhi H2.
  destruct (N.eqb_spec (Byte.to_N b0) 0xE0) as [E0|E0];
    destruct (N.eqb_spec (Byte.to_N b0) 0xED) as [ED|ED]; try lia.
  all: remember (Byte.to_N b0 - 0xE0) as a eqn:Ha;
    remember (Byte.to_N b1 - 0x80) as b eqn:Hb;
    remember (Byte.to_N b2 - 0x80) as c eqn:Hc;
    unfold utf8_encode_char;
    rewrite (digits3_hi a b c), (digits3_mid a b c), (mod_digits 64 _ c)
      by lia;
    decide_cmp; cbn [andb];
    rewrite (byte_of_eq _ b0), (byte_of_eq _ b1), (byte_of_eq _ b2) by lia;
    reflexivity.
Qed.

Lemma digits4_hi (a b c e : N) :
  b < 64 -> c < 64 -> e < 64 ->
  (((a * 64 + b) * 64 + c) * 64 + e) / 262144 = a.
Proof.
  intros Hb Hc He.
  replace (((a * 64 + b) * 64 + c) * 64 + e)
    with (a * 262144 + ((b * 64 + c) * 64 + e)) by lia.
  apply div_digits; lia.
Qed.

Lemma encode_width4 (b0 b1 b2 b3 : byte) :
  0xF0 <= Byte.to_N b0 < 0xF5 ->
  (if Byte.to_N b0 =? 0xF0 then 0x90 else 0x80) <= Byte.to_N b1 ->
  Byte.to_N b1 <= (if Byte.to_N b0 =? 0xF4 then 0x8F else 0xBF) ->
  0x80 <= Byte.to_N b2 <= 0xBF ->
  0x80 <= Byte.to_N b3 <= 0xBF ->
  utf8_encode_char
    ((((Byte.to_N b0 - 0xF0) * 64 + (Byte.to_N b1 - 0x80)) * 64
      + (Byte.to_N b2 - 0x80)) * 64 + (Byte.to_N b3 - 0x80))
  = Some [b0; b1; b2; b3].
Proof.
  intros H0 Hlo Hhi H2 H3.
  destruct (N.eqb_spec (Byte.to_N b0) 0xF0) as [E0|E0];
    destruct (N.eqb_spec (Byte.to_N b0) 0xF4) as [E4|E4]; try lia.
  all: remember (Byte.to_N b0 - 0xF0) as a eqn:Ha;
    remember (Byte.to_N b1 - 0x80) as b eqn:Hb;
    remember (Byte.to_N b2 - 0x80) as c eqn:Hc;
    remember (Byte.to_N b3 - 0x80) as e eqn:He;
    unfold utf8_encode_char;
    rewrite (digits4_hi a b c e), (digits3_hi (a * 64 + b) c e),
            (mod_digits 64 a b), (digits3_mid (a * 64 + b) c e),
            (mod_digits 64 _ e) by lia;
    decide_cmp;
    rewrite (byte_of_eq _ b0), (byte_of_eq _ b1), (byte_of_eq _ b2),
            (byte_of_eq _ b3) by lia;
    reflexivity.
Qed.

Lemma utf8_encode_cons (c : N) (s : str) (bs rest : list byte) :
  utf8_encode_char c = Some bs -> utf8_encode s = Some rest ->
  utf8_encode (c :: s) = Some (bs ++ rest).
Proof. intros Hc Hs. cbn [utf8_encode]. rewrite Hc, Hs. reflexivity. Qed.

(** Encoding what was decoded gives the bytes back. *)
Lemma utf8_encode_decode (bs : list byte) (s : str) :
  utf8_decode bs = Some s -> utf8_encode s = Some bs.
Proof.
  remember (length bs) as n eqn:Hn. revert bs s Hn.
  induction n as [n IH] using lt_wf_ind. intros bs s Hn H.
  destruct bs as [|b0 r0]; [inversion H; reflexivity|].
  cbn [utf8_decode] in H. cbv zeta in H.
  destruct (N.ltb_spec (Byte.to_N b0) 0x80) as [L1|L1].
  { apply fmap_Some in H as (s' & Hs' & ->).
    apply (utf8_encode_cons _ _ [b0] r0); [apply encode_width1; lia|].
    apply (IH (length r0)); [subst n; simpl; lia | reflexivity | exact Hs']. }
  destruct (N.ltb_spec (Byte.to_N b0) 0xC2) as [L2|L2]; [discriminate|].
  destruct (N.ltb_spec (Byte.to_N b0) 0xE0) as [L3|L3].
  { destruct r0 as [|b1 r1]; [discriminate|].
    destruct (is_cont (Byte.to_N b1)) eqn:C1; [|discriminate].
    apply is_cont_range in C1.
    apply fmap_Some in H as (s' & Hs' & ->).
    apply (utf8_encode_cons _ _ [b0; b1] r1); [apply encode_width2; lia|].
    apply (IH (length r1)); [subst n; simpl; lia | reflexivity | exact Hs']. }
  destruct (N.ltb_spec (Byte.to_N b0) 0xF0) as [L4|L4].
  { destruct r0 as [|b1 [|b2 r2]]; try discriminate.
    destruct (_ <=? Byte.to_N b1) eqn:Clo; [|discriminate].
    destruct (Byte.to_N b1 <=? _) eqn:Chi; [|discriminate].
    destruct (is_cont (Byte.to_N b2)) eqn:C2; [|discriminate].
    apply is_cont_range in C2. apply N.leb_le in Clo, Chi.
    apply fmap_Some in H as (s' & Hs' & ->).
    apply (utf8_encode_cons _ _ [b0; b1; b2] r2);
      [apply encode_width3; auto; lia|].
    apply (IH (length r2)); [subst n; simpl; lia | reflexivity | exact Hs']. }
  destruct (N.ltb_spec (Byte.to_N b0) 0xF5) as [L5|L5]; [|discriminate].
  destruct r0 as [|b1 [|b2 [|b3 r3]]]; try discriminate.
  destruct (_ <=? Byte.to_N b1) eqn:Clo; [|discriminate].
  destruct (Byte.to_N b1 <=? _) eqn:Chi; [|discriminate].
  destruct (is_cont (Byte.to_N b2)) eqn:C2; [|discriminate].
  destruct (is_cont (Byte.to_N b3)) eqn:C3; [|discriminate].
  apply is_cont_range in C2, C3. apply N.leb_le in Clo, Chi.
  apply fmap_Some in H as (s' & Hs' & ->).
  apply (utf8_encode_cons _ _ [b0; b1; b2; b3] r3);
    [apply encode_width4; auto; lia|].
  apply (IH (length r3)); [subst n; simpl; lia | reflexivity | exact Hs'].
Qed.

(** A text can be encoded exactly when each of its characters can. *)
Lemma utf8_encode_Some (s : str) :
  is_Some (utf8_encode s) <-> encodable s.
Proof.
  unfold encodable. induction s as [|c s IH]; cbn [utf8_encode].
  - split; [constructor | eauto].
  - rewrite Forall_cons, <- IH. split.
    + intros [bs H]. destruct (utf8_encode_char c); [|discriminate].
      destruct (utf8_encode s); [|discriminate]. split; eauto.
    + intros [[bc ->] [bs ->]]. cbn. eauto.
Qed.

Lemma decoded_encodable (bs : list byte) (s : str) :
  utf8_decode bs = Some s -> encodable s.
Proof.
  intros H. apply utf8_encode_Some. rewrite (utf8_encode_decode _ _ H). eauto.
Qed.

Lemma to_N_byte_of (n : N) : n < 256 -> Byte.to_N (byte_of n) = n.
Proof.
  intros H. unfold byte_of.
  destruct (Byte.of_N n) as [b|] eqn:E.
  - apply Byte.to_of_N. exact E.
  - apply Byte.of_N_None_iff in E. lia.
Qed.

(** The digits of a code point in base 64. *)
Lemma base64_digits (c : N) :
  c = (c / 64) * 64 + c mod 64 /\
  c / 64 = (c / 4096) * 64 + (c / 64) mod 64 /\
  c / 4096 = (c / 262144) * 64 + (c / 4096) mod 64 /\
  c mod 64 < 64 /\ (c / 64) mod 64 < 64 /\ (c / 4096) mod 64 < 64.
Proof.
  assert (H1 : c / 4096 = c / 64 / 64)
    by (rewrite N.Div0.div_div; reflexivity).
  assert (H2 : c / 262144 = c / 4096 / 64)
    by (rewrite N.Div0.div_div; reflexivity).
  rewrite H2, H1 at 1.
  pose proof (N.div_mod' c 64). pose proof (N.div_mod' (c / 64) 64).
  pose proof (N.div_mod' (c / 4096) 64).
  pose proof (N.mod_lt c 64). pose proof (N.mod_lt (c / 64) 64).
  pose proof (N.mod_lt (c / 4096) 64).
  rewrite H1 in *. lia.
Qed.

(** Decoding the bytes of one character gives the character back. *)
Lemma utf8_decode_char (c : N) (cb rest : list byte) :
  utf8_encode_char c = Some cb ->
  utf8_decode (cb ++ rest) = cons c <$> utf8_decode rest.
Proof.
  unfold utf8_encode_char.
  destruct (base64_digits c) as (D1 & D2 & D3 & R1 & R2 & R3).
  remember (c mod 64) as r1. remember ((c / 64) mod 64) as r2.
  remember ((c / 4096) mod 64) as r3.
  remember (c / 64) as q1. remember (c / 4096) as q2.
  remember (c / 262144) as q3.
  destruct (N.ltb_spec c 0x80) as [L1|L1].
  { intros [= <-]. cbn [app utf8_decode]. cbv zeta.
    rewrite to_N_byte_of by lia. decide_cmp. reflexivity. }
  destruct (N.ltb_spec c 0x800) as [L2|L2].
  { intros [= <-]. cbn [app utf8_decode]. cbv zeta.
    rewrite !to_N_byte_of by lia. unfold is_cont. decide_cmp.
    cbn [andb]. do 2 f_equal. lia. }
  destruct (N.ltb_spec c 0x10000) as [L3|L3].
  { destruct (N.leb_spec 0xD800 c) as [S1|S1];
      destruct (N.ltb_spec c 0xE000) as [S2|S2]; cbn [andb];
      try discriminate.
    all: intros [= <-]; cbn [app utf8_decode]; cbv zeta;
      rewrite !to_N_byte_of by lia; unfold is_cont;
      destruct (N.eqb_spec (0xE0 + q2) 0xE0);
      destruct (N.eqb_spec (0xE0 + q2) 0xED);
      decide_cmp; cbn [andb]; do 2 f_equal; lia. }
  destruct (N.ltb_spec c 0x110000) as [L4|L4]; [|discriminate].
  intros [= <-]. cbn [app utf8_decode]. cbv zeta.
  rewrite !to_N_byte_of by lia. unfold is_cont.
  destruct (N.eqb_spec (0xF0 + q3) 0xF0);
    destruct (N.eqb_spec (0xF0 + q3) 0xF4);
    decide_cmp; cbn [andb]; do 2 f_equal; lia.
Qed.

(** Decoding what was encoded gives the text back. *)
Lemma utf8_decode_encode (s : str) (bs : list byte) :
  utf8_encode s = Some bs -> utf8_decode bs = Some s.
Proof.
  revert bs. induction s as [|c s IH]; intros bs H; cbn [utf8_encode] in H.
  - injection H as <-. reflexivity.
  - destruct (utf8_encode_char c) as [cb|] eqn:Hc; [|discriminate].
    destruct (utf8_encode s) as [rest|] eqn:Hs; [|discriminate].
    cbn in H. injection H as <-.
    rewrite (utf8_decode_char c cb rest Hc), (IH rest eq_refl). reflexivity.
Qed.

(** ** Newline translation *)

Lemma universal_newlines_cr_lf (s : str) :
  universal_newlines (CR :: LF :: s) = LF :: universal_newlines s.
Proof. reflexivity. Qed.

Lemma universal_newlines_cr (d : N) (s : str) :
  d <> LF ->
  universal_newlines (CR :: d :: s) = LF :: universal_newlines (d :: s).
Proof.
  intros Hd. cbn [universal_newlines]. rewrite N.eqb_refl.
  apply N.eqb_neq in Hd. rewrite Hd. reflexivity.
Qed.

Lemma universal_newlines_other (c : N) (s : str) :
  c <> CR -> universal_newlines (c :: s) = c :: universal_newlines s.
Proof.
  intros Hc. cbn [universal_newlines].
  apply N.eqb_neq in Hc. rewrite Hc. reflexivity.
Qed.

(** Induction along the reading of line endings. *)
Lemma newlines_ind (P : str -> Prop) :
  P [] ->
  P [CR] ->
  (forall s, P s -> P (CR :: LF :: s)) ->
  (forall d s, d <> LF -> P (d :: s) -> P (CR :: d :: s)) ->
  (forall c s, c <> CR -> P s -> P (c :: s)) ->
  forall s, P s.
Proof.
  intros Hnil Hcr Hcrlf Hcrd Hother s.
  remember (length s) as n eqn:Hn. revert s Hn.
  induction n as [n IH] using lt_wf_ind. intros s Hn.
  destruct s as [|c s]; [exact Hnil|].
  destruct (N.eq_dec c CR) as [->|Hc].
  - destruct s as [|d s]; [exact Hcr|].
    destruct (N.eq_dec d LF) as [->|Hd].
    + apply Hcrlf, (IH (length s)); [subst n; simpl; lia | reflexivity].
    + apply Hcrd; [exact Hd|].
      apply (IH (length (d :: s))); [subst n; simpl; lia | reflexivity].
  - apply Hother; [exact Hc|].
    apply (IH (length s)); [subst n; simpl; lia | reflexivity].
Qed.

Lemma universal_newlines_Forall (P : N -> Prop) (s : str) :
  P LF -> Forall P s -> Forall P (universal_newlines s).
Proof.
  intros HLF.
  induction s as [| |s IH|d s Hd IH|c s Hc IH] using newlines_ind; intros H.
  - constructor.
  - repeat constructor. exact HLF.
  - rewrite universal_newlines_cr_lf. constructor; [exact HLF|].
    apply IH. inversion H as [|? ? _ H']. inversion H'. assumption.
  - rewrite (universal_newlines_cr _ _ Hd). constructor; [exact HLF|].
    apply IH. inversion H. assumption.
  - rewrite (universal_newlines_other _ _ Hc).
    inversion H; subst. constructor; [assumption | apply IH; assumption].
Qed.

Lemma translate_newlines_Forall (P : N -> Prop) (sep s : str) :
  Forall P sep -> Forall P s -> Forall P (translate_newlines sep s).
Proof.
  intros Hsep Hs. unfold translate_newlines.
  induction Hs as [|c s Hc Hs IH]; cbn [flat_map]; [constructor|].
  apply Forall_app. split; [|exact IH].
  destruct (c =? LF); [exact Hsep | repeat constructor; exact Hc].
Qed.

Lemma sub_from_Forall (P : N -> Prop) atoms (ins : str) (k : nat) (s : str) :
  Forall P ins -> Forall P s -> Forall P (Re.sub_from atoms ins k s).
Proof.
  intros Hins Hs. revert k.
  induction Hs as [|c s Hc Hs IH]; intros k; cbn [Re.sub_from].
  - destruct k; [|constructor].
    destruct (Re.match_here atoms []); [exact Hins | constructor].
  - destruct k as [|k]; [|apply IH].
    destruct (Re.match_here atoms (c :: s)).
    + apply Forall_app. split; [exact Hins|].
      destruct (length atoms); [constructor; [exact Hc|]|]; apply IH.
    + constructor; [exact Hc | apply IH].
Qed.

(** On a POSIX host text without carriage returns is read and written as it
    is. *)
Lemma universal_newlines_no_cr (s : str) :
  forallb (fun c => negb (c =? CR)) s = true -> universal_newlines s = s.
Proof.
  induction s as [|c s IH]; intros H; [reflexivity|].
  cbn [forallb] in H. apply andb_true_iff in H as [Hc Hs].
  apply negb_true_iff in Hc. cbn [universal_newlines]. rewrite Hc, (IH Hs).
  reflexivity.
Qed.

Lemma translate_newlines_lf (s : str) : translate_newlines [LF] s = s.
Proof.
  unfold translate_newlines. induction s as [|c s IH]; [reflexivity|].
  cbn [flat_map]. rewrite IH.
  destruct (N.eqb_spec c LF) as [->|_]; reflexivity.
Qed.

(** On a Windows host text whose only line ending is ['\r\n'] is read and
    written as it is. *)
Lemma translate_universal_crlf (s : str) :
  crlf_only s = true ->
  translate_newlines [CR; LF] (universal_newlines s) = s.
Proof.
  induction s as [| |s IH|d s Hd IH|c s Hc IH] using newlines_ind; intros H.
  - reflexivity.
  - discriminate.
  - rewrite universal_newlines_cr_lf. unfold translate_newlines in *.
    cbn [flat_map]. rewrite N.eqb_refl. cbn [app]. rewrite IH; [reflexivity|].
    exact H.
  - cbn [crlf_only] in H. rewrite N.eqb_refl in H.
    apply N.eqb_neq in Hd. rewrite Hd in H. discriminate.
  - cbn [crlf_only] in H. apply N.eqb_neq in Hc. rewrite Hc in H.
    apply andb_true_iff in H as [Hlf Hs]. apply negb_true_iff in Hlf.
    apply N.eqb_neq in Hc. rewrite (universal_newlines_other _ _ Hc).
    unfold translate_newlines in *. cbn [flat_map]. rewrite Hlf, (IH Hs).
    reflexivity.
Qed.

Lemma native_newlines_kept (os : platform) (s : str) :
  native_newlines os s = true ->
  translate_newlines (linesep os) (universal_newlines s) = s.
Proof.
  destruct os; cbn [native_newlines linesep]; intros H.
  - rewrite translate_newlines_lf. apply universal_newlines_no_cr, H.
  - apply translate_universal_crlf, H.
Qed.

(** ** Running the script *)

(** The text the script writes can always be encoded. *)
Lemma written_text_encodable (os : platform) (bs : list byte) (raw : str) :
  utf8_decode bs = Some raw ->
  is_Some (encode_text os (patched (universal_newlines raw))).
Proof.
  intros H. unfold encode_text. apply utf8_encode_Some.
  assert (Hlf : is_Some (utf8_encode_char LF)) by (vm_compute; eauto).
  assert (Hcr : is_Some (utf8_encode_char CR)) by (vm_compute; eauto).
  apply translate_newlines_Forall.
  - destruct os; repeat constructor; assumption.
  - apply sub_from_Forall.
    + apply utf8_encode_Some. vm_compute. eauto.
    + apply universal_newlines_Forall; [exact Hlf|].
      apply (decoded_encodable _ _ H).
Qed.

Lemma main_on_run (c : console) (os : platform) (w : world) :
  main_on c os w =
  match fs w !! target with
  | None => (inl FileNotFoundError, add_event (EvOpen target ModeR) w)
  | Some f =>
    if may_read f then
      let w1 := add_event (EvClose target)
                  (add_event (EvOpen target ModeR) w) in
      match utf8_decode (data f) with
      | None => (inl UnicodeDecodeError, w1)
      | Some raw =>
        let w2 := add_event (EvOpen target ModeW) w1 in
        if may_write f then
          match encode_text os (patched (universal_newlines raw)) with
          | None =>
            (inl UnicodeEncodeError,
             add_event (EvClose target)
               (set_fs (<[target := File [] true true]> (fs w)) w2))
          | Some bs =>
            let w3 := add_event (EvClose target)
                        (set_fs (<[target := File bs true true]> (fs w))
                           w2) in
            match c with
            | ConsoleOpen => (inr tt, add_stdout ("Fixed!" ++ nl) w3)
            | ConsoleClosed => (inr tt, w3)
            | ConsoleFull => (inr tt, w3)
            | ConsoleBroken => (inl OSError, w3)
            end
          end
        else (inl PermissionError, w2)
      end
    else (inl PermissionError, add_event (EvOpen target ModeR) w)
  end.
Proof.
  unfold main_on, with_open, open_, open_r, open_w, read, write, re_sub,
    bind.
  cbn [fs add_event].
  destruct (fs w !! target) as [f|] eqn:Hf; [|reflexivity].
  destruct (may_read f) eqn:Hr; [|reflexivity].
  cbn [fs add_event]. rewrite Hf. unfold decode_text.
  destruct (utf8_decode (data f)) as [raw|] eqn:Hraw;
    cbn [fmap option_fmap option_map]; [|reflexivity].
  change (Re.sub old_pattern new_pattern) with substitute.
  rewrite substitute_patched. unfold ret. cbn [fs add_event]. rewrite Hf.
  destruct (may_write f) eqn:Hw; [|reflexivity].
  cbn [fs set_fs add_event]. rewrite ?Hr.
  destruct (encode_text os (patched (universal_newlines raw))) as [bs|];
    [|reflexivity].
  rewrite lookup_insert_eq. cbn [data may_read may_write app fs set_fs].
  rewrite ?Hr.
  rewrite insert_insert_eq. cbv zeta. destruct c; reflexivity.
Qed.

Lemma main_run (os : platform) (w : world) :
  main os w =
  match fs w !! target with
  | None => (inl FileNotFoundError, add_event (EvOpen target ModeR) w)
  | Some f =>
    if may_read f then
      let w1 := add_event (EvClose target)
                  (add_event (EvOpen target ModeR) w) in
      match utf8_decode (data f) with
      | None => (inl UnicodeDecodeError, w1)
      | Some raw =>
        let w2 := add_event (EvOpen target ModeW) w1 in
        if may_write f then
          match encode_text os (patched (universal_newlines raw)) with
          | None =>
            (inl UnicodeEncodeError,
             add_event (EvClose target)
               (set_fs (<[target := File [] true true]> (fs w)) w2))
          | Some bs =>
            (inr tt,
             add_stdout ("Fixed!" ++ nl)
               (add_event (EvClose target)
                  (set_fs (<[target := File bs true true]> (fs w))
                     w2)))
          end
        else (inl PermissionError, w2)
      end
    else (inl PermissionError, add_event (EvOpen target ModeR) w)
  end.
Proof. exact (main_on_run ConsoleOpen os w). Qed.

(** ** Line endings and occurrences *)

Lemma startswith_head_ne (c0 c : N) (x s : str) :
  c0 <> c -> startswith (c0 :: x) (c :: s) = false.
Proof.
  intros H. cbn [startswith]. apply N.eqb_neq in H. rewrite H. reflexivity.
Qed.

Lemma startswith_universal_newlines (x s : str) :
  contains CR x = false -> contains LF x = false ->
  startswith x (universal_newlines s) = startswith x s.
Proof.
  intros Hcr Hlf. revert s.
  induction x as [|a x IH]; intros s; [reflexivity|].
  cbn [contains existsb] in Hcr, Hlf.
  apply orb_false_iff in Hcr as [Ha1 Hcr], Hlf as [Ha2 Hlf].
  apply N.eqb_neq in Ha1, Ha2.
  destruct s as [|c s]; [reflexivity|].
  destruct (N.eq_dec c CR) as [->|Hc].
  - rewrite (startswith_head_ne a CR) by congruence.
    cbn [universal_newlines]. rewrite N.eqb_refl.
    apply startswith_head_ne. congruence.
  - rewrite (universal_newlines_other _ _ Hc). cbn [startswith].
    rewrite (IH Hcr Hlf). reflexivity.
Qed.

(** Reading line endings neither creates nor destroys an occurrence of a
    literal that has no line ending in it. *)
Lemma occurrences_universal_newlines (c0 : N) (x s : str) :
  contains CR (c0 :: x) = false -> contains LF (c0 :: x) = false ->
  occurrences (c0 :: x) (universal_newlines s) = occurrences (c0 :: x) s.
Proof.
  intros Hcr Hlf.
  assert (H0cr : c0 <> CR).
  { cbn [contains existsb] in Hcr. apply orb_false_iff in Hcr as [H _].
    apply N.eqb_neq in H. congruence. }
  assert (H0lf : c0 <> LF).
  { cbn [contains existsb] in Hlf. apply orb_false_iff in Hlf as [H _].
    apply N.eqb_neq in H. congruence. }
  induction s as [| |s IH|d s Hd IH|c s Hc IH] using newlines_ind.
  - reflexivity.
  - cbn [universal_newlines]. rewrite N.eqb_refl, !occurrences_cons.
    rewrite !startswith_head_ne by assumption. reflexivity.
  - rewrite universal_newlines_cr_lf, !occurrences_cons.
    rewrite !startswith_head_ne by assumption. rewrite IH. reflexivity.
  - rewrite (universal_newlines_cr _ _ Hd), (occurrences_cons _ LF),
      (occurrences_cons _ CR).
    rewrite !startswith_head_ne by assumption. rewrite IH. reflexivity.
  - rewrite (universal_newlines_other _ _ Hc), !occurrences_cons, IH.
    rewrite <- (startswith_universal_newlines (c0 :: x) (c :: s) Hcr Hlf).
    rewrite (universal_newlines_other _ _ Hc). reflexivity.
Qed.

Lemma pattern_occurrences_read (s : str) :
  occurrences pattern_literal (universal_newlines s)
  = occurrences pattern_literal s.
Proof.
  rewrite pattern_literal_unfold.
  apply occurrences_universal_newlines; vm_compute; reflexivity.
Qed.

(** * The claims *)

(** ** The substitution of line 13 *)

(** C4: the pattern of line 10 parses to the characters of
    [${(goal as RevenueGoal).currentAmount}] taken literally, so it matches
    at a position exactly when that text stands there and the match is that
    text; the template of line 11 has no escape, so what is inserted for
    every match is the template itself, character for character. *)
Theorem C4_pattern_and_template_are_literal :
  Re.parse_pattern old_pattern = Some (map Re.Lit pattern_literal) /\
  (forall s m,
      Re.matched_text (map Re.Lit pattern_literal) s = Some m <->
      m = pattern_literal /\ exists rest, s = pattern_literal ++ rest) /\
  Re.parse_template new_pattern = Some replacement_literal /\
  replacement_literal = new_pattern /\
  (forall content,
      substitute content
      = Some (Re.sub_from (map Re.Lit pattern_literal) new_pattern 0 content)).
Proof.
  split; [exact parse_old_pattern|].
  split.
  { intros s m. unfold Re.matched_text.
    rewrite match_here_lit, length_map. split.
    - destruct (startswith pattern_literal s) eqn:Hs; [|discriminate].
      intros [= <-]. destruct (startswith_inv _ _ Hs) as [rest ->].
      split; [|exists rest; reflexivity].
      exact (take_app_length pattern_literal rest).
    - intros [-> [rest ->]]. rewrite startswith_app. reflexivity. }
  split; [exact parse_new_pattern|].
  split; [reflexivity|].
  intros content. exact (substitute_patched content).
Qed.

(** A text that already holds the replacement somewhere: one match, two
    occurrences of the replacement afterwards. *)
Example partly_patched_in_memory :
  occurrences pattern_literal partly_patched = 1%nat /\
  exists out,
    substitute partly_patched = Some out /\
    occurrences replacement_literal out = 2%nat.
Proof.
  split; [vm_compute; reflexivity|].
  eexists. split; [apply substitute_patched|]. vm_compute. reflexivity.
Qed.

(** X15: in memory, for a text with N >= 1 occurrences of the pattern
    text, the result of line 13 has no occurrence of it and has N
    occurrences of the replacement more than the text had; the text is
    N + 1 segments without the pattern joined by the pattern, and the result
    is the same segments joined by the replacement. *)
Theorem substitute_replaces_in_place (content : str) (N : nat) :
  occurrences pattern_literal content = N ->
  (1 <= N)%nat ->
  exists out,
    substitute content = Some out /\
    occurrences pattern_literal out = 0%nat /\
    occurrences replacement_literal out
    = (N + occurrences replacement_literal content)%nat /\
    exists segs : list str,
      length segs = S N /\
      Forall (fun g => occurrences pattern_literal g = 0%nat) segs /\
      content = join pattern_literal segs /\
      out = join replacement_literal segs.
Proof.
  intros HN _. exists (patched content).
  split; [apply substitute_patched|].
  split; [apply patched_no_pattern|].
  split; [rewrite patched_count_replacement, HN; reflexivity|].
  rewrite <- HN. apply patched_segments.
Qed.

Lemma substitute_replaces_in_place_witness :
  exists out,
    substitute (py "Revenue: ${(goal as RevenueGoal).currentAmount}")
    = Some out /\
    occurrences pattern_literal out = 0%nat /\
    occurrences replacement_literal out
    = (1 + occurrences replacement_literal
             (py "Revenue: ${(goal as RevenueGoal).currentAmount}"))%nat /\
    exists segs : list str,
      length segs = 2%nat /\
      Forall (fun g => occurrences pattern_literal g = 0%nat) segs /\
      py "Revenue: ${(goal as RevenueGoal).currentAmount}"
      = join pattern_literal segs /\
      out = join replacement_literal segs.
Proof.
  apply (substitute_replaces_in_place
           (py "Revenue: ${(goal as RevenueGoal).currentAmount}") 1).
  - vm_compute. reflexivity.
  - lia.
Defined.

(** C3: substituting in the result of a substitution changes nothing:
    twice in succession gives what once gives. *)
Theorem C3_substitute_twice (content : str) :
  substitute content ≫= substitute = substitute content.
Proof.
  rewrite substitute_patched.
  change (substitute (patched content) = Some (patched content)).
  rewrite substitute_patched.
  f_equal. apply patched_unchanged, patched_no_pattern.
Qed.

(** C10: the length of the result is the length of the content plus, for
    each occurrence of the pattern text, the length of the replacement (35)
    minus the length of the pattern text (38); the result is never
    longer than the content. *)
Theorem C10_length_of_result (content : str) :
  exists out,
    substitute content = Some out /\
    length replacement_literal = 35%nat /\
    length pattern_literal = 38%nat /\
    (Z.of_nat (length out)
     = Z.of_nat (length content)
       + Z.of_nat (occurrences pattern_literal content)
         * (Z.of_nat (length replacement_literal)
            - Z.of_nat (length pattern_literal)))%Z /\
    (length out <= length content)%nat.
Proof.
  exists (patched content).
  split; [apply substitute_patched|].
  split; [reflexivity|]. split; [reflexivity|].
  pose proof (patched_length content) as H.
  change (length replacement_literal) with 35%nat.
  change (length pattern_literal) with 38%nat.
  split; lia.
Qed.

(** ** The run of the script *)

Lemma python3_unfold (os : platform) (w : world) :
  python3 os w =
  match main os w with
  | (inr _, w') => Result 0 w'
  | (inl e, w') => Result 1 (add_stderr (traceback e) w')
  end.
Proof.
  unfold python3, python3_on, main.
  destruct (main_on ConsoleOpen os w) as [[e|u] w']; reflexivity.
Qed.

(** The five ways a run can go: the file is missing; it may not be read; it
    is not UTF-8; it may not be written; everything works. *)
Ltac run_cases os w :=
  rewrite ?python3_unfold; rewrite (main_run os w);
  let f := fresh "f" in
  let raw := fresh "raw" in
  let bs := fresh "bs" in
  let Hf := fresh "Hf" in
  let Hr := fresh "Hr" in
  let Hraw := fresh "Hraw" in
  let Hw := fresh "Hw" in
  let Hbs := fresh "Hbs" in
  destruct (fs w !! target) as [f|] eqn:Hf;
  [ destruct (may_read f) eqn:Hr;
    [ destruct (utf8_decode (data f)) as [raw|] eqn:Hraw; cbv zeta;
      [ destruct (may_write f) eqn:Hw;
        [ destruct (written_text_encodable os _ _ Hraw) as [bs Hbs];
          rewrite Hbs
        | ]
      | ]
    | ]
  | ];
  cbn [after exit_status fs stdout stderr trace
       add_event add_stdout add_stderr set_fs fst snd].

Lemma file_eta (f : file) :
  may_read f = true -> may_write f = true -> File (data f) true true = f.
Proof. destruct f; cbn. intros -> ->. reflexivity. Qed.

(** A successful run, in full. *)
Lemma run_success (os : platform) (w : world) (f : file) (raw : str) :
  fs w !! target = Some f ->
  may_read f = true -> may_write f = true ->
  utf8_decode (data f) = Some raw ->
  exists bs,
    encode_text os (patched (universal_newlines raw)) = Some bs /\
    exit_status (python3 os w) = 0%Z /\
    fs (after (python3 os w)) = <[target := File bs true true]> (fs w).
Proof.
  intros Hf Hr Hw Hraw.
  destruct (written_text_encodable os _ _ Hraw) as [bs Hbs].
  exists bs. split; [exact Hbs|].
  rewrite !python3_unfold. rewrite main_run, Hf, Hr, Hraw. cbv zeta.
  rewrite Hw, Hbs. split; reflexivity.
Qed.

(** C2, as stated, fails for a file with Windows line endings patched on a
    POSIX host: nothing matches, yet ['\r\n'] comes back as ['\n']. *)
Lemma C2_crlf_counterexample :
  (exists content,
      utf8_decode crlf_file = Some content /\
      occurrences pattern_literal content = 0%nat) /\
  exit_status (python3 Posix (world_with crlf_file true true)) = 0%Z /\
  data <$> fs (after (python3 Posix (world_with crlf_file true true))) !! target
  = Some [x61; x0a; x62] /\
  [x61; x0a; x62] <> crlf_file.
Proof.
  split; [eexists; split; vm_compute; reflexivity|].
  split; [vm_compute; reflexivity|].
  split; [vm_compute; reflexivity | discriminate].
Qed.

(** C2 (amended): when the content of the file has no occurrence of the
    pattern text and its line endings are those of the host (no carriage
    return on a POSIX host, only ['\r\n'] on a Windows host), the run
    succeeds and leaves the file, and every other file, byte for byte as it
    was. *)
Theorem C2_no_match_keeps_file
  (os : platform) (w : world) (f : file) (content : str) :
  fs w !! target = Some f ->
  may_read f = true -> may_write f = true ->
  utf8_decode (data f) = Some content ->
  occurrences pattern_literal content = 0%nat ->
  native_newlines os content = true ->
  exit_status (python3 os w) = 0%Z /\
  fs (after (python3 os w)) = fs w.
Proof.
  intros Hf Hr Hw Hraw H0 Hnl.
  destruct (run_success os w f content Hf Hr Hw Hraw)
    as (bs & Hbs & Hst & Hfs).
  split; [exact Hst|]. rewrite Hfs.
  rewrite patched_unchanged in Hbs
    by (rewrite pattern_occurrences_read; exact H0).
  unfold encode_text in Hbs. rewrite (native_newlines_kept os _ Hnl) in Hbs.
  rewrite (utf8_encode_decode _ _ Hraw) in Hbs. injection Hbs as <-.
  rewrite (file_eta f Hr Hw). apply insert_id. exact Hf.
Qed.

Lemma C2_no_match_keeps_file_witness :
  exit_status
    (python3 Posix (world_with (ascii_bytes "const total = 0;") true true))
  = 0%Z /\
  fs (after
        (python3 Posix (world_with (ascii_bytes "const total = 0;") true true)))
  = fs (world_with (ascii_bytes "const total = 0;") true true).
Proof.
  apply (C2_no_match_keeps_file Posix
           (world_with (ascii_bytes "const total = 0;") true true)
           (File (ascii_bytes "const total = 0;") true true)
           (py "const total = 0;")).
  - reflexivity.
  - reflexivity.
  - reflexivity.
  - vm_compute. reflexivity.
  - vm_compute. reflexivity.
  - vm_compute. reflexivity.
Defined.

(** ** Running the script a second time *)

Lemma universal_newlines_output (s : str) :
  Forall (fun c => c <> CR) (universal_newlines s).
Proof.
  assert (HLF : LF <> CR) by discriminate.
  induction s as [| |s IH|d s Hd IH|c s Hc IH] using newlines_ind.
  - constructor.
  - repeat constructor. exact HLF.
  - rewrite universal_newlines_cr_lf. constructor; assumption.
  - rewrite (universal_newlines_cr _ _ Hd). constructor; assumption.
  - rewrite (universal_newlines_other _ _ Hc). constructor; assumption.
Qed.

(** Text without carriage returns is read back as it was written. *)
Lemma read_back (os : platform) (t : str) :
  Forall (fun c => c <> CR) t ->
  universal_newlines (translate_newlines (linesep os) t) = t.
Proof.
  unfold translate_newlines.
  destruct os; cbn [linesep];
    (induction 1 as [|c t Hc Ht IH]; [reflexivity|]);
    cbn [flat_map]; destruct (N.eqb_spec c LF) as [->|Hlf]; cbn [app].
  - rewrite universal_newlines_other by discriminate. rewrite IH.
    reflexivity.
  - rewrite (universal_newlines_other _ _ Hc), IH. reflexivity.
  - rewrite universal_newlines_cr_lf, IH. reflexivity.
  - rewrite (universal_newlines_other _ _ Hc), IH. reflexivity.
Qed.

Lemma contains_false (c : N) (s : str) :
  contains c s = false -> Forall (fun x => x <> c) s.
Proof.
  induction s as [|x s IH]; intros H; [constructor|].
  cbn [contains existsb] in H. apply orb_false_iff in H as [Hx Hs].
  apply N.eqb_neq in Hx. constructor; [congruence | apply IH, Hs].
Qed.

Lemma patched_no_cr (s : str) :
  Forall (fun c => c <> CR) s -> Forall (fun c => c <> CR) (patched s).
Proof.
  intros H. apply sub_from_Forall; [|exact H].
  apply contains_false. vm_compute. reflexivity.
Qed.

(** What a run makes of the files and how it ends, from the target alone. *)
Lemma run_files (os : platform) (w : world) :
  (fs (after (python3 os w)), exit_status (python3 os w)) =
  match fs w !! target with
  | None => (fs w, 1%Z)
  | Some f =>
    if may_read f then
      match utf8_decode (data f) with
      | None => (fs w, 1%Z)
      | Some raw =>
        if may_write f then
          match encode_text os (patched (universal_newlines raw)) with
          | None => (<[target := File [] true true]> (fs w), 1%Z)
          | Some bs => (<[target := File bs true true]> (fs w), 0%Z)
          end
        else (fs w, 1%Z)
      end
    else (fs w, 1%Z)
  end.
Proof.
  rewrite !python3_unfold. rewrite main_run.
  destruct (fs w !! target) as [f|]; [|reflexivity].
  destruct (may_read f); [|reflexivity].
  destruct (utf8_decode (data f)) as [raw|]; [|reflexivity]. cbv zeta.
  destruct (may_write f); [|reflexivity].
  destruct (encode_text os (patched (universal_newlines raw))); reflexivity.
Qed.

(** X1: a second run of the script finds nothing to do: it ends as the
    first did and leaves every file as the first left it. *)
Theorem run_twice_same_files (os : platform) (w : world) :
  fs (after (python3 os (after (python3 os w)))) = fs (after (python3 os w)) /\
  exit_status (python3 os (after (python3 os w)))
  = exit_status (python3 os w).
Proof.
  pose proof (run_files os w) as H1.
  pose proof (run_files os (after (python3 os w))) as H2.
  destruct (fs w !! target) as [f|] eqn:Hf.
  2: { injection H1 as E1 E2. rewrite E1, Hf in H2. injection H2 as E3 E4.
       split; congruence. }
  destruct (may_read f) eqn:Hr.
  2: { injection H1 as E1 E2. rewrite E1, Hf, Hr in H2. injection H2 as E3 E4.
       split; congruence. }
  destruct (utf8_decode (data f)) as [raw|] eqn:Hraw.
  2: { injection H1 as E1 E2. rewrite E1, Hf, Hr, Hraw in H2.
       injection H2 as E3 E4. split; congruence. }
  destruct (may_write f) eqn:Hw.
  2: { injection H1 as E1 E2. rewrite E1, Hf, Hr, Hraw, Hw in H2.
       injection H2 as E3 E4. split; congruence. }
  destruct (written_text_encodable os _ _ Hraw) as [bs Hbs].
  rewrite Hbs in H1. injection H1 as E1 E2.
  assert (Hback : utf8_decode bs
                  = Some (translate_newlines (linesep os)
                            (patched (universal_newlines raw))))
    by (apply utf8_decode_encode; exact Hbs).
  rewrite E1, lookup_insert_eq in H2. cbn [may_read may_write data] in H2.
  rewrite Hback in H2.
  rewrite read_back in H2
    by (apply patched_no_cr, universal_newlines_output).
  rewrite (patched_unchanged (patched _)) in H2 by apply patched_no_pattern.
  rewrite Hbs, insert_insert_eq in H2. injection H2 as E3 E4.
  split; congruence.
Qed.



(** C7: on an empty file that may be read and written the run succeeds and
    the file is still empty (no file changes at all). *)
Theorem C7_empty_file_stays_empty (os : platform) (w : world) (f : file) :
  fs w !! target = Some f ->
  data f = [] ->
  may_read f = true -> may_write f = true ->
  exit_status (python3 os w) = 0%Z /\
  data <$> fs (after (python3 os w)) !! target = Some [] /\
  fs (after (python3 os w)) = fs w.
Proof.
  intros Hf Hd Hr Hw.
  assert (Hraw : utf8_decode (data f) = Some []) by (rewrite Hd; reflexivity).
  destruct (run_success os w f [] Hf Hr Hw Hraw) as (bs & Hbs & Hst & Hfs).
  assert (bs = []) as -> by (destruct os; vm_compute in Hbs; congruence).
  split; [exact Hst|]. rewrite Hfs.
  split; [rewrite lookup_insert_eq; reflexivity|].
  rewrite <- Hd, (file_eta f Hr Hw). apply insert_id. exact Hf.
Qed.

Lemma C7_empty_file_stays_empty_witness :
  exit_status (python3 Posix (world_with [] true true)) = 0%Z /\
  data <$> fs (after (python3 Posix (world_with [] true true))) !! target
  = Some [] /\
  fs (after (python3 Posix (world_with [] true true)))
  = fs (world_with [] true true).
Proof.
  apply (C7_empty_file_stays_empty Posix (world_with [] true true)
           (File [] true true)); reflexivity.
Defined.

(** C9: when the file is missing, may not be read, or does not decode as
    UTF-8, the run fails before the file is ever opened for writing: no
    file of the file system has changed. *)
Theorem C9_read_failure_keeps_file (os : platform) (w : world) :
  (fs w !! target = None \/
   exists f, fs w !! target = Some f /\
             (may_read f = false \/ utf8_decode (data f) = None)) ->
  exit_status (python3 os w) = 1%Z /\
  fs (after (python3 os w)) = fs w /\
  exists evs,
    trace (after (python3 os w)) = trace w ++ evs /\
    opens target ModeW evs = 0%nat.
Proof.
  intros H. run_cases os w.
  - exfalso. destruct H as [H | (f' & Hf' & [H | H])]; congruence.
  - exfalso. destruct H as [H | (f' & Hf' & [H | H])]; congruence.
  - repeat split. exists [EvOpen target ModeR; EvClose target].
    rewrite <- !app_assoc. split; reflexivity.
  - repeat split. exists [EvOpen target ModeR]. split; reflexivity.
  - repeat split. exists [EvOpen target ModeR]. split; reflexivity.
Qed.

Lemma C9_read_failure_keeps_file_witness :
  exit_status (python3 Posix (world_with [xc3; x28] true true)) = 1%Z /\
  fs (after (python3 Posix (world_with [xc3; x28] true true)))
  = fs (world_with [xc3; x28] true true) /\
  exists evs,
    trace (after (python3 Posix (world_with [xc3; x28] true true)))
    = trace (world_with [xc3; x28] true true) ++ evs /\
    opens target ModeW evs = 0%nat.
Proof.
  apply (C9_read_failure_keeps_file Posix (world_with [xc3; x28] true true)).
  right. exists (File [xc3; x28] true true).
  split; [reflexivity | right; vm_compute; reflexivity].
Defined.

(** ** Scenarios *)

Example scenario_revenue :
  substitute (py "Revenue: ${(goal as RevenueGoal).currentAmount}")
  = Some (py "Revenue: ${progress.currentValue.toFixed(2)}").
Proof. vm_compute. reflexivity. Qed.

Example scenario_two_matches :
  substitute
    (py "<b>${(goal as RevenueGoal).currentAmount}</b> of " ++
     py "${(goal as RevenueGoal).currentAmount}")
  = Some
      (py "<b>${progress.currentValue.toFixed(2)}</b> of " ++
       py "${progress.currentValue.toFixed(2)}").
Proof. vm_compute. reflexivity. Qed.

Example scenario_whitespace_variant :
  substitute (py "${(goal  as RevenueGoal).currentAmount}")
  = Some (py "${(goal  as RevenueGoal).currentAmount}").
Proof. vm_compute. reflexivity. Qed.

(** An unescaped dot would have matched more than the literal. *)
Example unescaped_dot_matches_more :
  Re.sub (py "goal.x") (py "-") (py "goalQx goal.x") = Some (py "- -").
Proof. vm_compute. reflexivity. Qed.

(** The empty pattern matches between all characters. *)
Example empty_pattern_sub :
  Re.sub [] (py "-") (py "abc") = Some (py "-a-b-c-").
Proof. vm_compute. reflexivity. Qed.

(** On a Windows host it is the POSIX line ending that is rewritten. *)
Example lf_file_on_windows :
  data <$> fs (after (python3 Windows (world_with [x61; x0a; x62] true true)))
           !! target
  = Some crlf_file.
Proof. vm_compute. reflexivity. Qed.

(* ===================================================================== *)
(** * Further properties of the script *)
(* ===================================================================== *)

(** ** The substitution of line 13 *)

Section LiteralSplit.

Variables (d : N) (p r : str).

Hypothesis d_notin_p : contains d p = false.

Local Abbreviation pat := (d :: p).
Local Abbreviation lsub := (Re.sub_literal (d :: p) (d :: r)).

(** Text without [d] that does not start [s] does not start [s] followed
    by [d] either. *)
Lemma startswith_before_marker (x s t : str) :
  contains d x = false ->
  startswith x s = false -> startswith x (s ++ d :: t) = false.
Proof.
  revert s. induction x as [|a x IH]; intros s Hx Hs; [discriminate|].
  cbn [contains existsb] in Hx. apply orb_false_iff in Hx as [Ha Hx].
  destruct s as [|c s]; cbn [app startswith] in *.
  - rewrite (N.eqb_sym a d), Ha. reflexivity.
  - destruct (a =? c); [|reflexivity]. cbn [andb] in *.
    apply IH; assumption.
Qed.

(** No match reaches across an occurrence of [d]: the scan of what stands
    before it and the scan from it on are independent. *)
Lemma lsub_app_marker (a t : str) :
  lsub (a ++ d :: t) = lsub a ++ lsub (d :: t).
Proof.
  induction a as [|rest IH|c s Hs IH] using (lsub_ind d p).
  - reflexivity.
  - rewrite <- app_assoc, !lsub_match, IH, app_assoc. reflexivity.
  - cbn [app]. rewrite (lsub_skip d p r c s Hs), lsub_skip.
    + rewrite IH. reflexivity.
    + cbn [startswith] in *. destruct (d =? c); [|reflexivity].
      cbn [andb] in *. apply startswith_before_marker; assumption.
Qed.

End LiteralSplit.

(** X7: the substitution returns its argument unchanged exactly when the
    pattern text does not occur in it. *)
Theorem substitute_fixes_iff_no_match (content : str) :
  substitute content = Some content <->
  occurrences pattern_literal content = 0%nat.
Proof.
  rewrite substitute_patched. split.
  - intros [= H]. pose proof (patched_length content) as L.
    rewrite H in L. lia.
  - intros H. rewrite (patched_unchanged _ H). reflexivity.
Qed.

(** X8: a match is replaced whatever stands around it: the result for
    [a ++ pattern ++ b] is the result for [a], the replacement, and the
    result for [b]. *)
Theorem substitute_around_match (a b : str) :
  exists oa ob,
    substitute a = Some oa /\
    substitute b = Some ob /\
    substitute (a ++ pattern_literal ++ b)
    = Some (oa ++ replacement_literal ++ ob).
Proof.
  exists (patched a), (patched b).
  split; [apply substitute_patched|].
  split; [apply substitute_patched|].
  rewrite substitute_patched. f_equal.
  rewrite !patched_unfold, pattern_literal_unfold, replacement_literal_unfold.
  cbn [app].
  rewrite (lsub_app_marker dollar pattern_tail replacement_tail
             dollar_notin_pattern_tail).
  apply (f_equal (app _)).
  exact (lsub_match dollar pattern_tail replacement_tail b).
Qed.

(** ** The run *)



(** X9: the run neither creates nor deletes a file: the same paths exist
    before and after. *)
Theorem same_paths_exist (os : platform) (w : world) :
  dom (fs (after (python3 os w))) = dom (fs w).
Proof.
  run_cases os w; try reflexivity.
  apply dom_insert_lookup_L. eauto.
Qed.

(** ** The file after a successful run *)

Lemma native_written (os : platform) (t : str) :
  Forall (fun c => c <> CR) t ->
  native_newlines os (translate_newlines (linesep os) t) = true.
Proof.
  unfold translate_newlines.
  destruct os; cbn [linesep native_newlines];
    (induction 1 as [|c t Hc Ht IH]; [reflexivity|]);
    cbn [flat_map]; destruct (N.eqb_spec c LF) as [->|Hlf]; cbn [app].
  - cbn [forallb]. rewrite IH. reflexivity.
  - cbn [forallb]. apply N.eqb_neq in Hc. rewrite Hc, IH. reflexivity.
  - cbn [crlf_only]. rewrite !N.eqb_refl, IH. reflexivity.
  - cbn [crlf_only]. apply N.eqb_neq in Hc, Hlf. rewrite Hc, Hlf, IH.
    reflexivity.
Qed.

(** X6: seen as text, the file after a successful run is the substitution
    of the file before: what [f.read()] would return next is
    [re.sub(old_pattern, new_pattern, ...)] of what it returned this time. *)
Theorem file_text_is_substituted
  (os : platform) (w : world) (f : file) (before : str) :
  fs w !! target = Some f ->
  may_read f = true -> may_write f = true ->
  decode_text (data f) = Some before ->
  exists f' later,
    fs (after (python3 os w)) !! target = Some f' /\
    decode_text (data f') = Some later /\
    substitute before = Some later.
Proof.
  intros Hf Hr Hw Hb. unfold decode_text in Hb.
  apply fmap_Some in Hb as (raw & Hraw & ->).
  destruct (run_success os w f raw Hf Hr Hw Hraw) as (bs & Hbs & _ & Hfs).
  exists (File bs true true), (patched (universal_newlines raw)).
  split; [rewrite Hfs; apply lookup_insert_eq|].
  split; [|apply substitute_patched].
  cbn [data]. unfold decode_text.
  rewrite (utf8_decode_encode _ _ Hbs). cbn [fmap option_fmap option_map].
  rewrite read_back by (apply patched_no_cr, universal_newlines_output).
  reflexivity.
Qed.

Lemma file_text_is_substituted_witness :
  exists f' later,
    fs (after (python3 Windows
                 (world_with
                    (ascii_bytes "x = ${(goal as RevenueGoal).currentAmount}")
                    true true))) !! target = Some f' /\
    decode_text (data f') = Some later /\
    substitute (py "x = ${(goal as RevenueGoal).currentAmount}") = Some later.
Proof.
  apply (file_text_is_substituted Windows
           (world_with
              (ascii_bytes "x = ${(goal as RevenueGoal).currentAmount}")
              true true)
           (File (ascii_bytes "x = ${(goal as RevenueGoal).currentAmount}")
                 true true)).
  - reflexivity.
  - reflexivity.
  - reflexivity.
  - vm_compute. reflexivity.
Defined.

(** X13: after a successful run the line endings of the file are those of
    the host and no other: no carriage return on a POSIX host, only
    ['\r\n'] on a Windows host. *)
Theorem success_leaves_host_line_endings (os : platform) (w : world) :
  exit_status (python3 os w) = 0%Z ->
  exists f' t,
    fs (after (python3 os w)) !! target = Some f' /\
    utf8_decode (data f') = Some t /\
    native_newlines os t = true.
Proof.
  run_cases os w; intros H; try discriminate.
  exists (File bs true true),
    (translate_newlines (linesep os) (patched (universal_newlines raw))).
  split; [apply lookup_insert_eq|].
  split; [apply utf8_decode_encode; exact Hbs|].
  apply native_written, patched_no_cr, universal_newlines_output.
Qed.

Lemma success_leaves_host_line_endings_witness :
  exists f' t,
    fs (after (python3 Posix (world_with crlf_file true true))) !! target
    = Some f' /\
    utf8_decode (data f') = Some t /\
    native_newlines Posix t = true.
Proof.
  apply (success_leaves_host_line_endings Posix
           (world_with crlf_file true true)).
  vm_compute. reflexivity.
Defined.

(** X12: strict UTF-8 decoding and encoding are inverse to each other:
    bytes decode to a text exactly when the text encodes to the bytes. *)
Theorem utf8_codec_inverse (bs : list byte) (s : str) :
  utf8_decode bs = Some s <-> utf8_encode s = Some bs.
Proof. split; [apply utf8_encode_decode | apply utf8_decode_encode]. Qed.

(** ** The bytes of the file *)

Lemma translate_newlines_app (sep a b : str) :
  translate_newlines sep (a ++ b)
  = translate_newlines sep a ++ translate_newlines sep b.
Proof. unfold translate_newlines. apply flat_map_app. Qed.

Lemma translate_newlines_no_lf (sep x : str) :
  contains LF x = false -> translate_newlines sep x = x.
Proof.
  unfold translate_newlines. induction x as [|c x IH]; intros H;
    [reflexivity|].
  cbn [contains existsb] in H. apply orb_false_iff in H as [Hc Hx].
  cbn [flat_map]. rewrite (N.eqb_sym c LF), Hc, (IH Hx). reflexivity.
Qed.

Lemma translate_newlines_join (sep x : str) (segs : list str) :
  contains LF x = false ->
  translate_newlines sep (join x segs)
  = join x (map (translate_newlines sep) segs).
Proof.
  intros Hx. induction segs as [|g [|g' tl] IH]; try reflexivity.
  rewrite join_cons, !translate_newlines_app, IH,
    (translate_newlines_no_lf sep x Hx).
  reflexivity.
Qed.

Lemma utf8_encode_app (a b : str) (ba bb : list byte) :
  utf8_encode a = Some ba -> utf8_encode b = Some bb ->
  utf8_encode (a ++ b) = Some (ba ++ bb).
Proof.
  revert ba. induction a as [|c a IH]; intros ba Ha Hb.
  - injection Ha as <-. exact Hb.
  - cbn [utf8_encode app] in *.
    destruct (utf8_encode_char c) as [bc|]; [|discriminate].
    destruct (utf8_encode a) as [ba'|]; [|discriminate].
    cbn in Ha. injection Ha as <-.
    rewrite (IH ba' eq_refl Hb). cbn. rewrite app_assoc. reflexivity.
Qed.

Lemma encodable_segments (sep : str) (segs : list str) :
  encodable (join sep segs) ->
  exists bsegs, Forall2 (fun g b => utf8_encode g = Some b) segs bsegs.
Proof.
  unfold encodable.
  induction segs as [|g [|g' tl] IH]; intros H.
  - exists []. constructor.
  - apply utf8_encode_Some in H as [b Hb]. exists [b].
    repeat constructor. exact Hb.
  - rewrite join_cons in H. apply Forall_app in H as [Hg H].
    apply Forall_app in H as [_ H].
    destruct (IH H) as [bsegs Hsegs].
    apply utf8_encode_Some in Hg as [b Hb].
    exists (b :: bsegs). constructor; assumption.
Qed.

Lemma utf8_encode_join (sep : str) (bsep : list byte)
      (segs : list str) (bsegs : list (list byte)) :
  utf8_encode sep = Some bsep ->
  Forall2 (fun g b => utf8_encode g = Some b) segs bsegs ->
  utf8_encode (join sep segs) = Some (join_bytes bsep bsegs).
Proof.
  intros Hsep. induction 1 as [|g b segs bsegs Hg Hrest IH]; [reflexivity|].
  destruct Hrest as [|g' b' segs bsegs Hg' Hrest]; [exact Hg|].
  rewrite join_cons.
  change (join_bytes bsep (b :: b' :: bsegs))
    with (b ++ bsep ++ join_bytes bsep (b' :: bsegs)).
  apply utf8_encode_app; [exact Hg|].
  apply utf8_encode_app; [exact Hsep | exact IH].
Qed.

Lemma encode_pattern_literal :
  utf8_encode pattern_literal
  = Some (ascii_bytes "${(goal as RevenueGoal).currentAmount}").
Proof. vm_compute. reflexivity. Qed.

Lemma encode_replacement_literal :
  utf8_encode replacement_literal
  = Some (ascii_bytes "${progress.currentValue.toFixed(2)}").
Proof. vm_compute. reflexivity. Qed.

(** X14: on the bytes of the file.  When the line endings of the file are
    those of the host, a successful run keeps every stretch of bytes
    between two matches, non-ASCII characters included, and writes the
    bytes of the replacement where the bytes of the pattern text stood:
    the file was these stretches joined by the one and is these stretches
    joined by the other. *)
Theorem bytes_between_matches_kept
  (os : platform) (w : world) (f : file) (content : str) :
  fs w !! target = Some f ->
  may_read f = true -> may_write f = true ->
  utf8_decode (data f) = Some content ->
  native_newlines os content = true ->
  exists bsegs : list (list byte),
    length bsegs = S (occurrences pattern_literal content) /\
    data f
    = join_bytes (ascii_bytes "${(goal as RevenueGoal).currentAmount}")
        bsegs /\
    data <$> fs (after (python3 os w)) !! target
    = Some (join_bytes (ascii_bytes "${progress.currentValue.toFixed(2)}")
              bsegs).
Proof.
  intros Hf Hr Hw Hraw Hnl.
  destruct (run_success os w f content Hf Hr Hw Hraw) as (bs & Hbs & _ & Hfs).
  destruct (patched_segments (universal_newlines content))
    as (segs & Hlen & _ & Hin & Hout).
  rewrite pattern_occurrences_read in Hlen.
  set (tsegs := map (translate_newlines (linesep os)) segs).
  assert (Hcontent : content = join pattern_literal tsegs).
  { rewrite <- (native_newlines_kept os content Hnl) at 1.
    rewrite Hin. apply translate_newlines_join. vm_compute. reflexivity. }
  assert (Hwritten : translate_newlines (linesep os)
                       (patched (universal_newlines content))
                     = join replacement_literal tsegs).
  { rewrite Hout. apply translate_newlines_join. vm_compute. reflexivity. }
  unfold encode_text in Hbs. rewrite Hwritten in Hbs.
  pose proof (utf8_encode_decode _ _ Hraw) as Henc.
  destruct (encodable_segments pattern_literal tsegs) as [bsegs Hsegs].
  { rewrite <- Hcontent. apply (decoded_encodable _ _ Hraw). }
  exists bsegs. split; [|split].
  - rewrite <- (Forall2_length _ _ _ Hsegs). unfold tsegs.
    rewrite length_map. exact Hlen.
  - rewrite Hcontent in Henc.
    rewrite (utf8_encode_join _ _ tsegs bsegs encode_pattern_literal Hsegs)
      in Henc.
    congruence.
  - rewrite Hfs, lookup_insert_eq. cbn [fmap option_fmap option_map data].
    rewrite (utf8_encode_join _ _ tsegs bsegs encode_replacement_literal
               Hsegs) in Hbs.
    congruence.
Qed.

Lemma bytes_between_matches_kept_witness :
  exists bsegs : list (list byte),
    length bsegs
    = S (occurrences pattern_literal
           [233; 36; 123; 40; 103; 111; 97; 108; 32; 97; 115; 32; 82; 101;
            118; 101; 110; 117; 101; 71; 111; 97; 108; 41; 46; 99; 117; 114;
            114; 101; 110; 116; 65; 109; 111; 117; 110; 116; 125; 8364]) /\
    [xc3; xa9] ++ ascii_bytes "${(goal as RevenueGoal).currentAmount}"
      ++ [xe2; x82; xac]
    = join_bytes (ascii_bytes "${(goal as RevenueGoal).currentAmount}")
        bsegs /\
    data <$> fs (after (python3 Posix
                          (world_with
                             ([xc3; xa9]
                                ++ ascii_bytes
                                     "${(goal as RevenueGoal).currentAmount}"
                                ++ [xe2; x82; xac])
                             true true))) !! target
    = Some (join_bytes (ascii_bytes "${progress.currentValue.toFixed(2)}")
              bsegs).
Proof.
  apply (bytes_between_matches_kept Posix
           (world_with
              ([xc3; xa9]
                 ++ ascii_bytes "${(goal as RevenueGoal).currentAmount}"
                 ++ [xe2; x82; xac])
              true true)
           (File ([xc3; xa9]
                    ++ ascii_bytes "${(goal as RevenueGoal).currentAmount}"
                    ++ [xe2; x82; xac])
                 true true)).
  - reflexivity.
  - reflexivity.
  - reflexivity.
  - vm_compute. reflexivity.
  - vm_compute. reflexivity.
Defined.

(* ===================================================================== *)
(** * The run, whatever standard output is *)
(* ===================================================================== *)

(** The cases of a run: the four states of standard output when the file
    was written, then a file that may not be written, is not UTF-8, may not
    be read, or is missing. *)
Ltac run_cases_on c os w :=
  unfold python3_on; rewrite (main_on_run c os w);
  let f := fresh "f" in
  let raw := fresh "raw" in
  let bs := fresh "bs" in
  let Hf := fresh "Hf" in
  let Hr := fresh "Hr" in
  let Hraw := fresh "Hraw" in
  let Hw := fresh "Hw" in
  let Hbs := fresh "Hbs" in
  destruct (fs w !! target) as [f|] eqn:Hf;
  [ destruct (may_read f) eqn:Hr;
    [ destruct (utf8_decode (data f)) as [raw|] eqn:Hraw; cbv zeta;
      [ destruct (may_write f) eqn:Hw;
        [ destruct (written_text_encodable os _ _ Hraw) as [bs Hbs];
          rewrite Hbs; destruct c
        | ]
      | ]
    | ]
  | ];
  cbn [after exit_status fs stdout stderr trace
       add_event add_stdout add_stderr set_fs fst snd].

(** What standard output is does not matter to the files. *)
Lemma files_whatever_console (c : console) (os : platform) (w : world) :
  fs (after (python3_on c os w)) = fs (after (python3 os w)).
Proof.
  unfold python3. generalize ConsoleOpen. intros c'.
  unfold python3_on. rewrite !main_on_run.
  destruct (fs w !! target) as [f|]; [|reflexivity].
  destruct (may_read f); [|reflexivity].
  destruct (utf8_decode (data f)) as [raw|]; [|reflexivity]. cbv zeta.
  destruct (may_write f); [|reflexivity].
  destruct (encode_text os (patched (universal_newlines raw)));
    [destruct c, c'|]; reflexivity.
Qed.

(** ** Line endings and the substitution *)

Lemma patched_match (rest : str) :
  patched (pattern_literal ++ rest) = replacement_literal ++ patched rest.
Proof. exact (lsub_match dollar pattern_tail replacement_tail rest). Qed.

Lemma patched_skip (c : N) (s : str) :
  startswith pattern_literal (c :: s) = false ->
  patched (c :: s) = c :: patched s.
Proof. exact (lsub_skip dollar pattern_tail replacement_tail c s). Qed.

Lemma patched_ind (P : str -> Prop) :
  P [] ->
  (forall rest, P rest -> P (pattern_literal ++ rest)) ->
  (forall c s,
      startswith pattern_literal (c :: s) = false -> P s -> P (c :: s)) ->
  forall s, P s.
Proof. exact (lsub_ind dollar pattern_tail P). Qed.

Lemma translate_newlines_cons (sep : str) (c : N) (s : str) :
  translate_newlines sep (c :: s)
  = (if c =? LF then sep else [c]) ++ translate_newlines sep s.
Proof. reflexivity. Qed.

(** Writing line endings neither creates nor destroys the start of a
    literal that has no line ending in it. *)
Lemma startswith_translate_newlines (os : platform) (x s : str) :
  contains CR x = false -> contains LF x = false ->
  startswith x (translate_newlines (linesep os) s) = startswith x s.
Proof.
  intros Hcr Hlf. revert s.
  induction x as [|a x IH]; intros s; [reflexivity|].
  cbn [contains existsb] in Hcr, Hlf.
  apply orb_false_iff in Hcr as [Ha1 Hcr], Hlf as [Ha2 Hlf].
  apply N.eqb_neq in Ha1, Ha2.
  destruct s as [|c s]; [reflexivity|].
  rewrite translate_newlines_cons.
  destruct (N.eqb_spec c LF) as [->|Hc].
  - rewrite (startswith_head_ne a LF) by congruence.
    destruct os; cbn [linesep app]; apply startswith_head_ne; congruence.
  - cbn [app startswith]. rewrite (IH Hcr Hlf). reflexivity.
Qed.

(** The substitution and the writing of line endings commute. *)
Lemma patched_translate_newlines (os : platform) (t : str) :
  patched (translate_newlines (linesep os) t)
  = translate_newlines (linesep os) (patched t).
Proof.
  induction t as [|rest IH|c s Hs IH] using patched_ind.
  - reflexivity.
  - rewrite patched_match, !translate_newlines_app.
    rewrite !translate_newlines_no_lf by (vm_compute; reflexivity).
    rewrite patched_match, IH. reflexivity.
  - rewrite (patched_skip _ _ Hs), !translate_newlines_cons, <- IH.
    destruct (N.eqb_spec c LF) as [->|Hc].
    + destruct os; cbn [linesep app];
        rewrite !patched_skip by (apply startswith_head_ne; discriminate);
        reflexivity.
    + cbn [app]. apply patched_skip.
      assert (E : c :: translate_newlines (linesep os) s
                  = translate_newlines (linesep os) (c :: s)).
      { rewrite translate_newlines_cons. apply N.eqb_neq in Hc.
        rewrite Hc. reflexivity. }
      rewrite E, startswith_translate_newlines
        by (vm_compute; reflexivity).
      exact Hs.
Qed.

(** When the line endings are those of the host, what is written is the
    substitution of the very text of the file. *)
Lemma written_native (os : platform) (content : str) :
  native_newlines os content = true ->
  translate_newlines (linesep os) (patched (universal_newlines content))
  = patched content.
Proof.
  intros H. rewrite <- patched_translate_newlines.
  rewrite (native_newlines_kept os content H). reflexivity.
Qed.

(** The file after a run that could read, decode and write it. *)
Lemma file_after_run
      (c : console) (os : platform) (w : world) (f : file) (raw : str) :
  fs w !! target = Some f ->
  may_read f = true -> may_write f = true ->
  utf8_decode (data f) = Some raw ->
  exists bs,
    encode_text os (patched (universal_newlines raw)) = Some bs /\
    fs (after (python3_on c os w)) = <[target := File bs true true]> (fs w).
Proof.
  intros Hf Hr Hw Hraw.
  destruct (run_success os w f raw Hf Hr Hw Hraw) as (bs & Hbs & _ & Hfs).
  exists bs. split; [exact Hbs|].
  rewrite files_whatever_console. exact Hfs.
Qed.

(** ** The claims about the file after the run *)

(** C1, as stated, fails on a file that already holds the replacement in
    one line and has a Windows line ending, patched on a POSIX host: one
    match, yet two occurrences of the replacement afterwards, and the
    carriage return, which is outside the match, is gone. *)
Lemma C1_partly_patched_file_counterexample :
  exists content f' out,
    utf8_decode partly_patched_file = Some content /\
    occurrences pattern_literal content = 1%nat /\
    fs (after (python3 Posix (world_with partly_patched_file true true)))
       !! target = Some f' /\
    utf8_decode (data f') = Some out /\
    occurrences replacement_literal out = 2%nat /\
    contains CR content = true /\
    contains CR out = false.
Proof.
  do 3 eexists.
  split; [vm_compute; reflexivity|].
  split; [vm_compute; reflexivity|].
  split; [vm_compute; reflexivity|].
  split; [vm_compute; reflexivity|].
  split; [vm_compute; reflexivity|].
  split; vm_compute; reflexivity.
Qed.

(** C1 (amended): for a file whose content has N >= 1 occurrences of the
    pattern text and whose line endings are those of the host, the content
    of the file after the run has no occurrence of the pattern text and has
    N occurrences of the replacement more than it had; the content was
    N + 1 segments without the pattern joined by the pattern, and is the
    same segments joined by the replacement: each replacement stands where
    its match stood and no other character has changed.  This holds
    whatever standard output is. *)
Theorem C1_file_matches_replaced_in_place
  (c : console) (os : platform) (w : world) (f : file)
  (content : str) (N : nat) :
  fs w !! target = Some f ->
  may_read f = true -> may_write f = true ->
  utf8_decode (data f) = Some content ->
  native_newlines os content = true ->
  occurrences pattern_literal content = N ->
  (1 <= N)%nat ->
  exists f' out,
    fs (after (python3_on c os w)) !! target = Some f' /\
    utf8_decode (data f') = Some out /\
    occurrences pattern_literal out = 0%nat /\
    occurrences replacement_literal out
    = (N + occurrences replacement_literal content)%nat /\
    exists segs : list str,
      length segs = S N /\
      Forall (fun g => occurrences pattern_literal g = 0%nat) segs /\
      content = join pattern_literal segs /\
      out = join replacement_literal segs.
Proof.
  intros Hf Hr Hw Hraw Hnl HN _.
  destruct (file_after_run c os w f content Hf Hr Hw Hraw)
    as (bs & Hbs & Hfs).
  unfold encode_text in Hbs. rewrite (written_native os content Hnl) in Hbs.
  exists (File bs true true), (patched content).
  split; [rewrite Hfs; apply lookup_insert_eq|].
  split; [apply utf8_decode_encode; exact Hbs|].
  split; [apply patched_no_pattern|].
  split; [rewrite patched_count_replacement, HN; reflexivity|].
  rewrite <- HN. apply patched_segments.
Qed.

Lemma C1_file_matches_replaced_in_place_witness :
  exists f' out,
    fs (after (python3_on ConsoleOpen Windows
                 (world_with
                    (ascii_bytes "<b>${(goal as RevenueGoal).currentAmount}"
                       ++ [x0d; x0a])
                    true true))) !! target = Some f' /\
    utf8_decode (data f') = Some out /\
    occurrences pattern_literal out = 0%nat /\
    occurrences replacement_literal out
    = (1 + occurrences replacement_literal
             (py "<b>${(goal as RevenueGoal).currentAmount}"
                ++ [CR; LF]))%nat /\
    exists segs : list str,
      length segs = 2%nat /\
      Forall (fun g => occurrences pattern_literal g = 0%nat) segs /\
      py "<b>${(goal as RevenueGoal).currentAmount}" ++ [CR; LF]
      = join pattern_literal segs /\
      out = join replacement_literal segs.
Proof.
  apply (C1_file_matches_replaced_in_place ConsoleOpen Windows
           (world_with
              (ascii_bytes "<b>${(goal as RevenueGoal).currentAmount}"
                 ++ [x0d; x0a])
              true true)
           (File (ascii_bytes "<b>${(goal as RevenueGoal).currentAmount}"
                    ++ [x0d; x0a])
                 true true)).
  - reflexivity.
  - reflexivity.
  - reflexivity.
  - vm_compute. reflexivity.
  - vm_compute. reflexivity.
  - vm_compute. reflexivity.
  - lia.
Defined.

(** ** The confirmation *)

(** C6, as stated, fails when standard output is closed: the run is
    successful, exit status 0, and nothing at all is printed. *)
Lemma C6_closed_stdout_counterexample :
  exit_status
    (python3_on ConsoleClosed Posix
       (world_with (ascii_bytes "const total = 0;") true true)) = 0%Z /\
  stdout (after
            (python3_on ConsoleClosed Posix
               (world_with (ascii_bytes "const total = 0;") true true)))
  = [].
Proof. split; vm_compute; reflexivity. Qed.

(** C6 (amended): a run that ends with exit status 0 while standard output
    is open has printed the one line [Fixed!] and nothing else, whatever
    the file held and however many matches there were; the only other run
    that ends with exit status 0 is one whose standard output is closed,
    and it has printed nothing. *)
Theorem C6_success_prints_once_if_open
  (c : console) (os : platform) (w : world) :
  exit_status (python3_on c os w) = 0%Z ->
  (c = ConsoleOpen /\
   stdout (after (python3_on c os w))
   = stdout w ++ [("Fixed!" ++ nl)%string]) \/
  (c = ConsoleClosed /\ stdout (after (python3_on c os w)) = stdout w).
Proof.
  run_cases_on c os w; intros H; try discriminate.
  - left. split; reflexivity.
  - right. split; reflexivity.
Qed.

Lemma C6_success_prints_once_if_open_witness :
  (ConsoleOpen = ConsoleOpen /\
   stdout (after (python3_on ConsoleOpen Posix
                    (world_with (ascii_bytes "const total = 0;") true true)))
   = stdout (world_with (ascii_bytes "const total = 0;") true true)
     ++ [("Fixed!" ++ nl)%string]) \/
  (ConsoleOpen = ConsoleClosed /\
   stdout (after (python3_on ConsoleOpen Posix
                    (world_with (ascii_bytes "const total = 0;") true true)))
   = stdout (world_with (ascii_bytes "const total = 0;") true true)).
Proof.
  apply (C6_success_prints_once_if_open ConsoleOpen Posix
           (world_with (ascii_bytes "const total = 0;") true true)).
  vm_compute. reflexivity.
Defined.

(** ** Two runs *)




(** ** How a run can end *)

(** X3: a run ends with exit status 0 only if the file exists, may be
    read, may be written and is valid UTF-8, and standard output is open or
    closed. *)
Theorem success_requires (c : console) (os : platform) (w : world) :
  exit_status (python3_on c os w) = 0%Z ->
  (exists f,
      fs w !! target = Some f /\
      may_read f = true /\ may_write f = true /\
      is_Some (utf8_decode (data f))) /\
  (c = ConsoleOpen \/ c = ConsoleClosed).
Proof.
  run_cases_on c os w; intros H; try discriminate.
  - split; [exists f; repeat split; eauto | left; reflexivity].
  - split; [exists f; repeat split; eauto | right; reflexivity].
Qed.

Lemma success_requires_witness :
  (exists f,
      fs (world_with crlf_file true true) !! target = Some f /\
      may_read f = true /\ may_write f = true /\
      is_Some (utf8_decode (data f))) /\
  (ConsoleClosed = ConsoleOpen \/ ConsoleClosed = ConsoleClosed).
Proof.
  apply (success_requires ConsoleClosed Windows
           (world_with crlf_file true true)).
  vm_compute. reflexivity.
Defined.

(** X4: the script never ends with [re.error] or [UnicodeEncodeError]:
    the pattern and the template of lines 10 and 11 are well formed, and a
    text that was decoded and substituted can always be encoded.  A missing
    file ends it with [FileNotFoundError], a file that may not be read with
    [PermissionError], and a readable file that is not UTF-8 with
    [UnicodeDecodeError]. *)
Theorem exceptions_of_the_script (c : console) (os : platform) (w : world) :
  fst (main_on c os w) <> inl re_error /\
  fst (main_on c os w) <> inl UnicodeEncodeError /\
  (fs w !! target = None ->
   fst (main_on c os w) = inl FileNotFoundError) /\
  (forall f, fs w !! target = Some f -> may_read f = false ->
             fst (main_on c os w) = inl PermissionError) /\
  (forall f, fs w !! target = Some f -> may_read f = true ->
             utf8_decode (data f) = None ->
             fst (main_on c os w) = inl UnicodeDecodeError).
Proof.
  rewrite main_on_run.
  destruct (fs w !! target) as [f|] eqn:Hf.
  - destruct (may_read f) eqn:Hr.
    + destruct (utf8_decode (data f)) as [raw|] eqn:Hraw; cbv zeta.
      * destruct (may_write f) eqn:Hw.
        -- destruct (written_text_encodable os _ _ Hraw) as [bs Hbs].
           rewrite Hbs.
           destruct c; cbn [fst]; repeat split; try discriminate;
             intros; congruence.
        -- cbn [fst]. repeat split; try discriminate; intros; congruence.
      * cbn [fst]. repeat split; try discriminate; intros; congruence.
    + cbn [fst]. repeat split; try discriminate; intros; congruence.
  - cbn [fst]. repeat split; try discriminate; intros; congruence.
Qed.


(** X11: the confirmation is truthful.  Whenever a run has added anything
    to standard output, the file has been written and closed before, the
    run ends with exit status 0, and the text of the file has no occurrence
    of the pattern text left. *)
Theorem confirmation_is_truthful
  (c : console) (os : platform) (w : world) :
  stdout (after (python3_on c os w)) <> stdout w ->
  exit_status (python3_on c os w) = 0%Z /\
  trace (after (python3_on c os w))
  = trace w ++ [EvOpen target ModeR; EvClose target;
                EvOpen target ModeW; EvClose target] /\
  exists f' later,
    fs (after (python3_on c os w)) !! target = Some f' /\
    decode_text (data f') = Some later /\
    occurrences pattern_literal later = 0%nat.
Proof.
  run_cases_on c os w; intros H; try (exfalso; apply H; reflexivity).
  split; [reflexivity|].
  split; [rewrite <- !app_assoc; reflexivity|].
  exists (File bs true true), (patched (universal_newlines raw)).
  split; [apply lookup_insert_eq|].
  split; [|apply patched_no_pattern].
  cbn [data]. unfold decode_text.
  rewrite (utf8_decode_encode _ _ Hbs). cbn [fmap option_fmap option_map].
  rewrite read_back by (apply patched_no_cr, universal_newlines_output).
  reflexivity.
Qed.

Lemma confirmation_is_truthful_witness :
  exit_status (python3_on ConsoleOpen Posix
                 (world_with partly_patched_file true true)) = 0%Z /\
  trace (after (python3_on ConsoleOpen Posix
                  (world_with partly_patched_file true true)))
  = trace (world_with partly_patched_file true true)
    ++ [EvOpen target ModeR; EvClose target;
        EvOpen target ModeW; EvClose target] /\
  exists f' later,
    fs (after (python3_on ConsoleOpen Posix
                 (world_with partly_patched_file true true))) !! target
    = Some f' /\
    decode_text (data f') = Some later /\
    occurrences pattern_literal later = 0%nat.
Proof.
  apply (confirmation_is_truthful ConsoleOpen Posix
           (world_with partly_patched_file true true)).
  vm_compute. discriminate.
Defined.
